(** * aq_widget: sensor selection, AQI derivation and history pruning

    A shallow embedding of [src/aq_widget.py], the properties of it that
    the specification states, and further properties of the same
    functions.  Python values are modelled as follows.

    - [float] is IEEE-754 binary64.  The arithmetic the module uses is
      collected in the interface [PyFloat]; its instance [binary64] is
      Rocq's primitive floats (the same format and rounding as CPython's),
      and its instance [exact] is the rationals, the arithmetic of the
      formula read without rounding error.  The functions of [math] that
      [dist_km] calls are the interface [PyMath], which stays abstract.
    - [int] is [Z]; [str] is [string]; [None] is [None] of an [option].
    - A raised exception is the [Raise] outcome of the monad [py].
    - The history and previous-state dictionaries are [gmap string _].
    - The network and the file system are arguments: what a GET of the area
      URL answers, what a path holds, how [json.loads] decodes a text.

    The first part holds the definitions, in the order of the source; the
    second part the properties.  The properties of the AQI calculation are
    proved for binary64 arithmetic, from the specification of the primitive
    floats: a float is ordered by an integer [key], and each operation is
    the round-to-nearest-even of its exact result. *)

From Stdlib Require Import ZArith QArith Qround Floats List Ascii String Bool Lia Lqa.
From stdpp Require Import base option gmap strings.
Import ListNotations.

Local Open Scope Z_scope.
#[local] Set Warnings "-inexact-float".

(** ** Exceptions and the error monad *)

Inductive exn : Type :=
| ZeroDivisionError
| ValueError
| OverflowError
| ConnectionError
| HTTPError
| JSONDecodeError.

Inductive py (A : Type) : Type :=
| Ret (a : A)
| Raise (e : exn).

Arguments Ret {A} a.
Arguments Raise {A} e.

#[export] Instance py_ret : MRet py := @Ret.

#[export] Instance py_bind : MBind py := fun A B k c =>
  match c with
  | Ret a => k a
  | Raise e => Raise e
  end.

(** ** Python's [round] on one argument: nearest integer, ties to even *)

Definition round_half_even (q : Q) : Z :=
  let d := Z.pos (Qden q) in
  let n := Qnum q / d in
  match (2 * (Qnum q mod d)) ?= d with
  | Lt => n
  | Gt => n + 1
  | Eq => if Z.even n then n else n + 1
  end.

(** ** The float interface *)

Class PyFloat (F : Type) : Type := {
  f_of_Z : Z -> F;            (* float(n) for an int n *)
  f_lit : Q -> F;             (* the value of a decimal literal *)
  f_le : F -> F -> bool;      (* x <= y *)
  f_lt : F -> F -> bool;      (* x < y *)
  f_add : F -> F -> F;
  f_sub : F -> F -> F;
  f_mul : F -> F -> F;
  f_div : F -> F -> py F;     (* x / y, ZeroDivisionError when y == 0 *)
  f_round : F -> py Z;        (* round(x) *)
}.

(** *** binary64 *)

Module B64.

Definition of_Z (z : Z) : float :=
  SF2Prim (binary_normalize prec emax z 0 false).

(** A decimal literal denotes the float nearest to it; for numerator and
    denominator below 2^53 this is the correctly rounded quotient. *)
Definition lit (q : Q) : float :=
  PrimFloat.div (of_Z (Qnum q)) (of_Z (Z.pos (Qden q))).

Definition div (x y : float) : py float :=
  if PrimFloat.eqb y 0%float then Raise ZeroDivisionError
  else Ret (PrimFloat.div x y).

(** The rational a finite float denotes. *)
Definition exact_value (x : spec_float) : option Q :=
  match x with
  | S754_zero _ => Some 0%Q
  | S754_finite s m e =>
      let a := if s then Z.neg m else Z.pos m in
      Some (match e with
            | Z.neg p => a # (2 ^ p)%positive
            | _ => (a * 2 ^ e) # 1
            end)
  | S754_infinity _ | S754_nan => None
  end.

Definition round (x : float) : py Z :=
  match Prim2SF x with
  | S754_nan => Raise ValueError
  | S754_infinity _ => Raise OverflowError
  | sf => match exact_value sf with
          | Some q => Ret (round_half_even q)
          | None => Raise ValueError
          end
  end.

(** An integer that orders the floats as they compare: the value scaled
    by 2^1074, with the infinities at [huge], beyond every finite value. *)
Definition huge : Z := 2 ^ 2098.

Definition key (x : spec_float) : Z :=
  match x with
  | S754_zero _ | S754_nan => 0
  | S754_infinity s => if s then - huge else huge
  | S754_finite s m e =>
      let v := Z.pos m * 2 ^ (e + 1074) in if s then - v else v
  end.

Definition is_nan_sf (x : spec_float) : bool :=
  match x with
  | S754_nan => true
  | _ => false
  end.

Definition fkey (x : float) : Z := key (Prim2SF x).

(** The keys of the values below 2^1023, and the products of two of them:
    the range in which no operation overflows. *)
Definition value_bound : Z := 2 ^ 2097.
Definition product_bound : Z := 2 ^ 3171.

(** [z] is the integer nearest to [V / U], the even one on a tie. *)
Definition nearest_even (V U z : Z) : Prop :=
  2 * U * z - U <= 2 * V <= 2 * U * z + U /\
  (2 * V = 2 * U * z + U -> Z.even z = true) /\
  (2 * V = 2 * U * z - U -> Z.even z = true).

(** The scale: every exact value the operations produce is an integer
    multiple of 2^-2200. *)
Definition scale : Z := 2200.

(** [k] is the key of the binary64 rounding of the positive value
    [V / 2^scale]: [g] is its magnitude, [f] the exponent of its format
    neighbours, [z] the rounded mantissa. *)
Definition rounds_to (V k : Z) : Prop :=
  exists g f z,
    2 ^ (g - 1 + scale) <= V < 2 ^ (g + scale) /\ 0 <= g - 1 + scale /\
    f = Z.max (g - 53) (-1074) /\
    nearest_even V (2 ^ (f + scale)) z /\
    k = z * 2 ^ (f + 1074).

(** The state of the shifter after [k + 1] steps on [m]. *)
Definition shifted (m : Z) (k : nat) (x : shr_record) : Prop :=
  exists low,
    0 <= low < 2 ^ Z.of_nat k /\ 0 <= shr_m x /\
    m = shr_m x * (2 * 2 ^ Z.of_nat k) + Z.b2z (shr_r x) * 2 ^ Z.of_nat k + low /\
    shr_s x = negb (low =? 0).

(** A zero, or a positive finite float. *)
Definition nonneg (x : spec_float) : Prop :=
  match x with
  | S754_zero _ => True
  | S754_finite false _ _ => True
  | _ => False
  end.

(** Where rounding starts from: zero stays zero, a positive value is
    rounded to nearest-even. *)
Definition rounded (V k : Z) : Prop :=
  (V = 0 /\ k = 0) \/ (0 < V /\ rounds_to V k).

(** [lo < C < hi] *)
Definition strictly_between (lo hi C : float) : bool :=
  PrimFloat.ltb lo C && PrimFloat.ltb C hi.

End B64.

#[export] Instance binary64 : PyFloat float := {
  f_of_Z := B64.of_Z;
  f_lit := B64.lit;
  f_le := PrimFloat.leb;
  f_lt := PrimFloat.ltb;
  f_add := PrimFloat.add;
  f_sub := PrimFloat.sub;
  f_mul := PrimFloat.mul;
  f_div := B64.div;
  f_round := B64.round;
}.

(** *** exact rational arithmetic *)

Module Exact.

Definition div (x y : Q) : py Q :=
  if Qeq_bool y 0 then Raise ZeroDivisionError else Ret (x / y)%Q.

End Exact.

#[export] Instance exact : PyFloat Q := {
  f_of_Z := inject_Z;
  f_lit := fun q => q;
  f_le := Qle_bool;
  f_lt := fun x y => negb (Qle_bool y x);
  f_add := Qplus;
  f_sub := Qminus;
  f_mul := Qmult;
  f_div := Exact.div;
  f_round := fun q => Ret (round_half_even q);
}.

(** ** AQI calculation *)

Section Aqi.

Context {F : Type} `{PyFloat F}.

(** One row [(Clow, Chigh, Ilow, Ihigh)] of a breakpoint table. *)
Definition breakpoint : Type := F * F * Z * Z.

(** [Clow <= C <= Chigh] *)
Definition in_bucket (C : F) (b : breakpoint) : bool :=
  let '(Clow, Chigh, _, _) := b in
  f_le Clow C && f_le C Chigh.

(** [(Ihigh - Ilow) / (Chigh - Clow) * (C - Clow) + Ilow] *)
Definition interpolate (C : F) (b : breakpoint) : py F :=
  let '(Clow, Chigh, Ilow, Ihigh) := b in
  k ← f_div (f_of_Z (Ihigh - Ilow)) (f_sub Chigh Clow);
  Ret (f_add (f_mul k (f_sub C Clow)) (f_of_Z Ilow)).

Fixpoint bucket_loop (C : F) (table : list breakpoint) : py (option Z) :=
  match table with
  | [] => Ret None
  | b :: rest =>
      if in_bucket C b then
        aqi ← interpolate C b;
        n ← f_round aqi;
        Ret (Some n)
      else bucket_loop C rest
  end.

Definition calc_aqi_from_breakpoints (C : option F) (table : list breakpoint)
  : py (option Z) :=
  match C with
  | None => Ret None
  | Some C => bucket_loop C table
  end.

Definition from_literals (rows : list (Q * Q * Z * Z)) : list breakpoint :=
  map (fun '(lo, hi, il, ih) => (f_lit lo, f_lit hi, il, ih)) rows.

End Aqi.

(** The tables as written in the source; [row] only fixes how the four
    literals of a tuple are read. *)
Definition row (Clow Chigh : Q) (Ilow Ihigh : Z) : Q * Q * Z * Z :=
  (Clow, Chigh, Ilow, Ihigh).
Arguments row (Clow Chigh)%_Q (Ilow Ihigh)%_Z.

Definition PM25_rows : list (Q * Q * Z * Z) :=
  [ row 0.0 12.0 0 50;
    row 12.1 35.4 51 100;
    row 35.5 55.4 101 150;
    row 55.5 150.4 151 200;
    row 150.5 250.4 201 300;
    row 250.5 500.4 301 500 ].

(** The PM10 bounds are ints in the source; against a float they compare
    and subtract as the floats of the same value, and the quotient of two
    of them is the correctly rounded one. *)
Definition PM10_rows : list (Q * Q * Z * Z) :=
  [ row 0 54 0 50;
    row 55 154 51 100;
    row 155 254 101 150;
    row 255 354 151 200;
    row 355 424 201 300;
    row 425 604 301 500 ].

Section Tables.

Context {F : Type} `{PyFloat F}.

Definition PM25_BREAKPOINTS : list breakpoint := from_literals PM25_rows.
Definition PM10_BREAKPOINTS : list breakpoint := from_literals PM10_rows.

Definition calc_aqi (pm25 pm10 : option F) : py (option Z) :=
  aqi25 ← match pm25 with
           | Some _ => calc_aqi_from_breakpoints pm25 PM25_BREAKPOINTS
           | None => Ret None
           end;
  aqi10 ← match pm10 with
           | Some _ => calc_aqi_from_breakpoints pm10 PM10_BREAKPOINTS
           | None => Ret None
           end;
  let vals := omap id [aqi25; aqi10] in
  match vals with
  | [] => Ret None
  | v :: vs => Ret (Some (fold_left Z.max vs v))
  end.

End Tables.

(** ** Category and trend *)

Definition category_and_color (aqi : Z) : string * string :=
  if aqi <=? 50 then ("Good", "0,255,128,220")
  else if aqi <=? 100 then ("Moderate", "255,220,0,220")
  else if aqi <=? 150 then ("Unhealthy for sensitive", "255,153,0,220")
  else if aqi <=? 200 then ("Unhealthy", "255,51,51,220")
  else if aqi <=? 300 then ("Very unhealthy", "186,85,211,220")
  else ("Hazardous", "128,0,64,220").

Definition trend_icon (new old : option Z) : string :=
  match new, old with
  | None, _ | _, None => "arrow_flat"
  | Some new, Some old =>
      if new >? old then "arrow_up"
      else if new <? old then "arrow_down"
      else "arrow_flat"
  end.

(** ** Persisted snapshots *)

(** What the file system answers for one path: [path.exists()] and
    [path.read_text(encoding="utf-8")]. *)
Record path_state : Type := {
  path_exists : bool;
  read_text : py string;
}.

(** [try: c  except Exception: h] *)
Definition try_except {A : Type} (c : py A) (h : py A) : py A :=
  match c with
  | Ret a => Ret a
  | Raise _ => h
  end.

Section LoadJson.

(** [json.loads], into the type [J] of decoded documents; a text that is
    not JSON raises. *)
Context {J : Type} (json_loads : string -> py J).

Definition load_json (path : path_state) (default : J) : py J :=
  if path_exists path then
    try_except (text ← read_text path; json_loads text) (Ret default)
  else Ret default.

End LoadJson.

(** ** Settings *)

Record location (F : Type) : Type := {
  name : string;
  lat : F;
  lon : F;
  loc_sensor_id : option Z;
}.
Arguments name {F} _.
Arguments lat {F} _.
Arguments lon {F} _.
Arguments loc_sensor_id {F} _.

(** The module-level constants of the SETTINGS block.  [LOCATIONS] keeps the
    dictionary's insertion order. *)
Record settings (F : Type) : Type := {
  LOCATIONS : list (string * location F);
  RADIUS_KM : Z;
  HOURS_HISTORY : Z;
}.
Arguments LOCATIONS {F} _.
Arguments RADIUS_KM {F} _.
Arguments HOURS_HISTORY {F} _.

Definition source_settings {F : Type} `{PyFloat F} : settings F := {|
  LOCATIONS :=
    [ ("home", {| name := "My Home"; lat := f_lit 40.000000;
                  lon := f_lit 44.500000; loc_sensor_id := Some 83131 |});
      ("vanya", {| name := "Vanya's Home"; lat := f_lit 40.200000;
                   lon := f_lit 44.500000; loc_sensor_id := Some 80868 |}) ];
  RADIUS_KM := 2;
  HOURS_HISTORY := 24;
|}.

(** ** History *)

Record history_entry (F : Type) : Type := {
  ts : F;
  aqi : option Z;
  pm25 : option F;
  pm10 : option F;
}.
Arguments ts {F} _.
Arguments aqi {F} _.
Arguments pm25 {F} _.
Arguments pm10 {F} _.

Section History.

Context {F : Type} `{PyFloat F} (cfg : settings F).

(** [ts - e["ts"] <= max_age].  Python compares the float with the int
    [max_age] exactly; for an int up to 2^53 that is the comparison with
    [float(max_age)]. *)
Definition fresh_enough (now : F) (max_age : Z) (e : history_entry F) : bool :=
  f_le (f_sub now (ts e)) (f_of_Z max_age).

Definition update_history (history : gmap string (list (history_entry F)))
    (key : string) (now : F) (a : option Z) (p25 p10 : option F)
  : gmap string (list (history_entry F)) :=
  let entries := default [] (history !! key) in
  let entries := entries ++ [ {| ts := now; aqi := a; pm25 := p25; pm10 := p10 |} ] in
  let max_age := HOURS_HISTORY cfg * 3600 in
  let entries := List.filter (fresh_enough now max_age) entries in
  <[ key := entries ]> history.

End History.

(** ** Sensor.Community payload *)

(** One element of [sensordatavalues].  [value] is the outcome of
    [float(sv.get("value"))]: [None] when the conversion raises [TypeError]
    or [ValueError]. *)
Record measurement (F : Type) : Type := {
  value_type : option string;
  value : option F;
}.
Arguments value_type {F} _.
Arguments value {F} _.

(** One entry of the payload.  [latitude] and [longitude] are the outcomes
    of [float(loc.get(...))], [None] when the conversion raises. *)
Record reading (F : Type) : Type := {
  sensor_id : option Z;
  timestamp : option string;
  timestamp_measured : option string;
  latitude : option F;
  longitude : option F;
  sensordatavalues : list (measurement F);
}.
Arguments sensor_id {F} _.
Arguments timestamp {F} _.
Arguments timestamp_measured {F} _.
Arguments latitude {F} _.
Arguments longitude {F} _.
Arguments sensordatavalues {F} _.

(** The decoded body: a list of entries, or any other JSON value. *)
Inductive payload (F : Type) : Type :=
| NotAList
| Readings (data : list (reading F)).
Arguments NotAList {F}.
Arguments Readings {F} data.

Record http_response (F : Type) : Type := {
  raise_for_status : py unit;     (* HTTPError on a 4xx or 5xx status *)
  json : py (payload F);          (* JSONDecodeError on a body that is not JSON *)
}.
Arguments raise_for_status {F} _.
Arguments json {F} _.

(** The functions of Python's [math] module that [dist_km] calls, and
    [float("inf")]. *)
Class PyMath (F : Type) : Type := {
  f_inf : F;
  m_radians : F -> F;
  m_sin : F -> py F;              (* ValueError on an infinity *)
  m_cos : F -> py F;
  m_sqrt : F -> py F;             (* ValueError on a negative argument *)
  m_atan2 : F -> F -> F;
  m_pow : F -> Z -> py F;         (* x ** n, OverflowError out of range *)
}.

(** Truth value of an optional string: [None] and [""] are false. *)
Definition truthy (s : option string) : bool :=
  match s with
  | Some s => negb (String.eqb s "")
  | None => false
  end.

(** [a or b] *)
Definition py_or (a b : option string) : option string :=
  if truthy a then a else b.

Definition one_of (vt : option string) (names : list string) : bool :=
  match vt with
  | Some s => existsb (String.eqb s) names
  | None => false
  end.

Section Sensor.

Context {F : Type} `{PyFloat F} `{PyMath F}.

Definition extract_pm (entry : reading F) : option F * option F :=
  fold_left
    (fun '(p25, p10) sv =>
       match value sv with
       | None => (p25, p10)
       | Some val =>
           if one_of (value_type sv) ["P2"; "SDS_P2"; "PM2.5"; "pm2.5"]
           then (Some val, p10)
           else if one_of (value_type sv) ["P1"; "SDS_P1"; "PM10"; "pm10"]
           then (p25, Some val)
           else (p25, p10)
       end)
    (sensordatavalues entry) (None, None).

(** [entry.get("timestamp") or entry.get("timestamp_measured")] *)
Definition stamp (entry : reading F) : option string :=
  py_or (timestamp entry) (timestamp_measured entry).

(** The body of the first loop: the state is [(latest_ts, candidate)]. *)
Definition by_id_step (sid : Z)
    (st : option string * option (reading F)) (entry : reading F)
  : option string * option (reading F) :=
  let '(latest_ts, candidate) := st in
  if negb (bool_decide (sensor_id entry = Some sid)) then st
  else
    let t := stamp entry in
    if truthy t &&
       match latest_ts, t with
       | None, _ => true
       | Some latest, Some t' => String.ltb latest t'
       | Some _, None => false
       end
    then (t, Some entry)
    else st.

Definition select_by_id (sid : Z) (data : list (reading F))
  : option (reading F) :=
  snd (fold_left (by_id_step sid) data (None, None)).

Definition dist_km (a_lat a_lon b_lat b_lon : F) : py F :=
  let R := f_lit 6371.0 in
  let dlat := m_radians (f_sub b_lat a_lat) in
  let dlon := m_radians (f_sub b_lon a_lon) in
  hlat ← f_div dlat (f_of_Z 2);
  slat ← m_sin hlat;
  slat2 ← m_pow slat 2;
  ca ← m_cos (m_radians a_lat);
  cb ← m_cos (m_radians b_lat);
  hlon ← f_div dlon (f_of_Z 2);
  slon ← m_sin hlon;
  slon2 ← m_pow slon 2;
  let A := f_add slat2 (f_mul (f_mul ca cb) slon2) in
  sA ← m_sqrt A;
  s1A ← m_sqrt (f_sub (f_of_Z 1) A);
  let c := f_mul (f_of_Z 2) (m_atan2 sA s1A) in
  Ret (f_mul R c).

(** The second loop: the state is [(best, best_d)]. *)
Fixpoint nearest_loop (lat lon : F) (data : list (reading F))
    (best : option (reading F)) (best_d : F) : py (option (reading F)) :=
  match data with
  | [] => Ret best
  | entry :: rest =>
      match latitude entry, longitude entry with
      | Some slat, Some slon =>
          d ← dist_km lat lon slat slon;
          if f_lt d best_d then nearest_loop lat lon rest (Some entry) d
          else nearest_loop lat lon rest best best_d
      | _, _ => nearest_loop lat lon rest best best_d
      end
  end.

Definition select_nearest (lat lon : F) (data : list (reading F))
  : py (option (reading F)) :=
  nearest_loop lat lon data None f_inf.

(** Lines 84-127: the candidate entry. *)
Definition select_candidate (lat lon : F) (sid : option Z)
    (data : list (reading F)) : py (option (reading F)) :=
  let candidate :=
    match sid with
    | Some sid => select_by_id sid data
    | None => None
    end in
  match candidate with
  | Some c => Ret (Some c)
  | None => select_nearest lat lon data
  end.

(** [requests_get] answers the GET of the area URL built from [lat],
    [lon] and [radius_km]; it raises when the endpoint is unreachable. *)
Definition fetch_sensor_data
    (requests_get : F -> F -> Z -> py (http_response F))
    (lat lon : F) (sid : option Z) (radius_km : Z)
  : py (option F * option F) :=
  resp ← requests_get lat lon radius_km;
  _ ← raise_for_status resp;
  data ← json resp;
  match data with
  | NotAList | Readings [] => Ret (None, None)
  | Readings data =>
      candidate ← select_candidate lat lon sid data;
      match candidate with
      | None => Ret (None, None)
      | Some c => Ret (extract_pm c)
      end
  end.

End Sensor.

(** ** One run *)

Record state_entry : Type := {
  st_aqi : option Z;
  st_updated : string;
}.

(** The variables written for one location. *)
Record location_vars (F : Type) : Type := {
  v_aqi : option Z;
  v_color : string;
  v_icon : string;
  v_category : string;
  v_name : string;
  v_pm25 : option F;
  v_pm10 : option F;
}.

(** What a completed run hands to its sinks: the variable lines in order,
    the new state snapshot and the history snapshot.  Writing the files and
    drawing the graphs are not modelled. *)
Record run_output (F : Type) : Type := {
  out_lines : list (string * location_vars F);
  out_state : gmap string state_entry;
  out_history : gmap string (list (history_entry F));
}.
Arguments out_lines {F} _.
Arguments out_state {F} _.
Arguments out_history {F} _.

Section Main.

Context {F : Type} `{PyFloat F} `{PyMath F} (cfg : settings F).
Context (requests_get : F -> F -> Z -> py (http_response F)).
Context (loads_state : string -> py (gmap string state_entry)).
Context (loads_history : string -> py (gmap string (list (history_entry F)))).

(** The body of the loop over [LOCATIONS.items()]. *)
Definition main_step (prev_state : gmap string state_entry)
    (now_iso : string) (now_ts : F)
    (acc : run_output F) (item : string * location F) : py (run_output F) :=
  let '(key, loc) := item in
  '(p25, p10) ← fetch_sensor_data requests_get (lat loc) (lon loc)
                   (loc_sensor_id loc) (RADIUS_KM cfg);
  a ← calc_aqi p25 p10;
  let old_aqi := prev_state !! key ≫= st_aqi in
  let new_state :=
    <[ key := {| st_aqi := a; st_updated := now_iso |} ]> (out_state acc) in
  let '(cat, color, icon) :=
    match a with
    | None => ("No data", "128,128,128,180", "arrow_flat")
    | Some n => (fst (category_and_color n), snd (category_and_color n),
                 trend_icon a old_aqi)
    end in
  let history := update_history cfg (out_history acc) key now_ts a p25 p10 in
  Ret {| out_lines := out_lines acc ++
           [ (key, {| v_aqi := a; v_color := color; v_icon := icon;
                      v_category := cat; v_name := name loc;
                      v_pm25 := p25; v_pm10 := p10 |}) ];
         out_state := new_state;
         out_history := history |}.

Fixpoint main_loop (prev_state : gmap string state_entry)
    (now_iso : string) (now_ts : F)
    (items : list (string * location F)) (acc : run_output F)
  : py (run_output F) :=
  match items with
  | [] => Ret acc
  | item :: rest =>
      acc' ← main_step prev_state now_iso now_ts acc item;
      main_loop prev_state now_iso now_ts rest acc'
  end.

Definition main (state_file history_file : path_state)
    (now_iso : string) (now_ts : F) : py (run_output F) :=
  prev_state ← load_json loads_state state_file ∅;
  history ← load_json loads_history history_file ∅;
  main_loop prev_state now_iso now_ts (LOCATIONS cfg)
    {| out_lines := []; out_state := ∅; out_history := history |}.

End Main.

(** ** Vocabulary of the statements *)

(** The bucket at which the loop of [calc_aqi_from_breakpoints] stops. *)
Definition first_bucket {F : Type} `{PyFloat F} (C : F)
    (table : list breakpoint) : option breakpoint :=
  find (in_bucket C) table.

(** In exact arithmetic: a bucket has [Clow < Chigh] and [Ilow <= Ihigh],
    and each bucket of a table ends before the later ones begin. *)
Definition bucket_ok (b : @breakpoint Q) : Prop :=
  let '(Clow, Chigh, Ilow, Ihigh) := b in
  (Clow < Chigh)%Q /\ Ilow <= Ihigh.

Definition ends_before (b b' : @breakpoint Q) : Prop :=
  let '(_, Chigh, _, _) := b in
  let '(Clow', _, _, _) := b' in
  (Chigh < Clow')%Q.

Fixpoint ascending (table : list (@breakpoint Q)) : Prop :=
  match table with
  | [] => True
  | b :: rest => bucket_ok b /\ Forall (ends_before b) rest /\ ascending rest
  end.

(** The interpolated value before rounding, in exact arithmetic. *)
Definition exact_index (C : Q) (b : @breakpoint Q) : Q :=
  let '(Clow, Chigh, Ilow, Ihigh) := b in
  (inject_Z (Ihigh - Ilow) / (Chigh - Clow) * (C - Clow) + inject_Z Ilow)%Q.

(** What the spec calls the combination of two optional sub-indices. *)
Definition worse_of (a25 a10 : option Z) : option Z :=
  match a25, a10 with
  | Some x, Some y => Some (Z.max x y)
  | Some x, None => Some x
  | None, Some y => Some y
  | None, None => None
  end.

Section FirstLoop.

Context {F : Type}.

(** An entry the first loop can take: the wanted sensor, with a non-empty
    timestamp. *)
Definition usable (sid : Z) (r : reading F) : Prop :=
  sensor_id r = Some sid /\ truthy (stamp r) = true.

(** What the first loop has found after the entries [seen]. *)
Definition by_id_invariant (sid : Z) (seen : list (reading F))
    (st : option string * option (reading F)) : Prop :=
  match st with
  | (None, None) => forall r, In r seen -> ~ usable sid r
  | (Some t, Some c) =>
      In c seen /\ usable sid c /\ stamp c = Some t /\
      forall r t', In r seen -> usable sid r -> stamp r = Some t' ->
                   String.ltb t t' = false
  | _ => False
  end.

End FirstLoop.

Section RequestOutcomes.

Context {F : Type} (cfg : settings F).
Context (requests_get : F -> F -> Z -> py (http_response F)).

(** The three ways the request of one location fails with [e]: the endpoint
    is unreachable, the status is an error, the body is not JSON. *)
Definition request_fails (loc : location F) (e : exn) : Prop :=
  requests_get (lat loc) (lon loc) (RADIUS_KM cfg) = Raise e \/
  exists resp, requests_get (lat loc) (lon loc) (RADIUS_KM cfg) = Ret resp /\
    (raise_for_status resp = Raise e \/
     (raise_for_status resp = Ret tt /\ json resp = Raise e)).

(** The body decodes, but not to a non-empty list. *)
Definition request_is_empty (loc : location F) : Prop :=
  exists resp data,
    requests_get (lat loc) (lon loc) (RADIUS_KM cfg) = Ret resp /\
    raise_for_status resp = Ret tt /\ json resp = Ret data /\
    (data = NotAList \/ data = Readings []).

End RequestOutcomes.

Section Binary64Vocabulary.

Import B64.

Definition nn (x : float) : Prop := nonneg (Prim2SF x).

(** The interpolation with slope [k] from [lo] and offset [i], as the code
    evaluates it. *)
Definition line (k lo i C : float) : float := (k * (C - lo) + i)%float.

(** The bounds that keep the three operations away from overflow at [C]. *)
Definition in_range (k lo i C : float) : Prop :=
  fkey C < value_bound /\
  fkey k * fkey (C - lo) < product_bound /\
  fkey (k * (C - lo)) + fkey i < value_bound.

(** A bucket whose slope exists and whose interpolation stays in range up
    to its high bound. *)
Definition sound_bucket (b : @breakpoint float) : Prop :=
  let '(lo, hi, il, ih) := b in
  exists k, B64.div (B64.of_Z (ih - il)) (hi - lo) = Ret k /\
    nn k /\ nn lo /\ nn hi /\ nn (B64.of_Z il) /\
    in_range k lo (B64.of_Z il) hi.

(** [b] ends before [b'] begins. *)
Definition ends_before64 (b b' : @breakpoint float) : Prop :=
  let '(_, hi, _, _) := b in
  let '(lo', _, _, _) := b' in
  fkey hi < fkey lo'.

Fixpoint ascending64 (table : list (@breakpoint float)) : Prop :=
  match table with
  | [] => True
  | b :: rest => sound_bucket b /\ Forall (ends_before64 b) rest /\ ascending64 rest
  end.

(** What the loop computes once it has stopped at [b]. *)
Definition index_at (C : float) (b : @breakpoint float) : py (option Z) :=
  raw ← interpolate C b; n ← f_round raw; Ret (Some n).

End Binary64Vocabulary.

(** A decoder that accepts only the empty object, and a response with a
    server error, for the concrete runs below. *)
Definition loads_empty_object (text : string) : py (gmap string state_entry) :=
  if String.eqb text "{}" then Ret ∅ else Raise JSONDecodeError.

Definition loads_no_history (text : string)
  : py (gmap string (list (history_entry float))) :=
  if String.eqb text "{}" then Ret ∅ else Raise JSONDecodeError.

Definition server_error : http_response float :=
  {| raise_for_status := Raise HTTPError; json := Raise JSONDecodeError |}.

Definition missing_file : path_state :=
  {| path_exists := false; read_text := Raise ValueError |}.

Definition truncated_file : path_state :=
  {| path_exists := true; read_text := Ret "{'home': {'aqi': 4" |}.

(** A payload for the concrete runs: sensor 83131 reports twice, once
    without any timestamp; sensor 70012 sits at the target point. *)
Definition stale : reading float :=
  {| sensor_id := Some 83131; timestamp := None; timestamp_measured := None;
     latitude := Some 40.012%float; longitude := Some 44.489%float;
     sensordatavalues := [ {| value_type := Some "P2"; value := Some 48.3%float |} ] |}.

Definition neighbour : reading float :=
  {| sensor_id := Some 70012; timestamp := Some "2024-05-01 10:05:00";
     timestamp_measured := None;
     latitude := Some 40.0%float; longitude := Some 44.5%float;
     sensordatavalues := [ {| value_type := Some "P2"; value := Some 7.1%float |} ] |}.

Definition earlier : reading float :=
  {| sensor_id := Some 83131; timestamp := Some "2024-05-01 10:00:00";
     timestamp_measured := None;
     latitude := Some 40.012%float; longitude := Some 44.489%float;
     sensordatavalues := [ {| value_type := Some "P2"; value := Some 30.0%float |} ] |}.

Definition later : reading float :=
  {| sensor_id := Some 83131; timestamp := None;
     timestamp_measured := Some "2024-05-01 10:02:30";
     latitude := Some 40.012%float; longitude := Some 44.489%float;
     sensordatavalues := [ {| value_type := Some "P2"; value := Some 31.5%float |} ] |}.

(** A history for the concrete runs: at [now_example] the first entry is
    one second too old, the second exactly 24 hours old, the third one hour
    old. *)
Definition now_example : float := 1700086400.0%float.

Definition sample (t : float) (a : Z) : history_entry float :=
  {| ts := t; aqi := Some a; pm25 := None; pm10 := None |}.

Definition history_example : gmap string (list (history_entry float)) :=
  {[ "home"%string := [ sample 1699999999.0 61; sample 1700000000.0 57;
                        sample 1700082800.0 49 ] ]}.

(** ** Further vocabulary *)

(** *** Index ranges of the buckets *)

(** The ends of a bucket lie in it and get its two index bounds. *)
Definition exact_ends (b : @breakpoint float) : Prop :=
  let '(lo, hi, il, ih) := b in
  in_bucket lo b = true /\ in_bucket hi b = true /\
  index_at lo b = Ret (Some il) /\ index_at hi b = Ret (Some ih).

(** The index range of [b] ends below that of [b']. *)
Definition index_below (b b' : @breakpoint float) : Prop :=
  let '(_, _, _, ih) := b in
  let '(_, _, il', _) := b' in
  ih < il'.

Fixpoint stepped (table : list (@breakpoint float)) : Prop :=
  match table with
  | [] => True
  | b :: rest => exact_ends b /\ Forall (index_below b) rest /\ stepped rest
  end.

(** The index bounds of a bucket. *)
Definition Ilow_of {F : Type} (b : @breakpoint F) : Z := snd (fst b).
Definition Ihigh_of {F : Type} (b : @breakpoint F) : Z := snd b.

(** Every index of the range of [b] has the category and colour of its
    high bound. *)
Definition one_band (b : @breakpoint float) : Prop :=
  forall n, Ilow_of b <= n <= Ihigh_of b ->
    category_and_color n = category_and_color (Ihigh_of b).

(** *** Measurements and the first loop *)

(** The value a measurement contributes as PM2.5, and as PM10: its
    converted value, when its type is one of the names of the kind. *)
Definition pm25_value {F : Type} (sv : measurement F) : option F :=
  if one_of (value_type sv) ["P2"; "SDS_P2"; "PM2.5"; "pm2.5"]%string
  then value sv else None.

Definition pm10_value {F : Type} (sv : measurement F) : option F :=
  if one_of (value_type sv) ["P1"; "SDS_P1"; "PM10"; "pm10"]%string
  then value sv else None.

Section FirstLoopPosition.

Context {F : Type}.

(** Where the first loop stands after [seen]: its candidate is the first
    of the usable entries that carry the greatest timestamp. *)
Definition first_latest (sid : Z) (seen : list (reading F))
    (st : option string * option (reading F)) : Prop :=
  match st with
  | (None, None) => forall r, In r seen -> ~ usable sid r
  | (Some t, Some c) =>
      usable sid c /\ stamp c = Some t /\
      exists pre post, seen = pre ++ c :: post /\
        (forall r t', In r pre -> usable sid r -> stamp r = Some t' ->
           String.ltb t' t = true) /\
        (forall r t', In r post -> usable sid r -> stamp r = Some t' ->
           String.ltb t t' = false)
  | _ => False
  end.

End FirstLoopPosition.

(** *** The second loop *)

Section NearestVocabulary.

Context {F : Type} `{PyFloat F} `{PyMath F}.





End NearestVocabulary.

(** *** Runs *)

Arguments v_aqi {F} _.
Arguments v_color {F} _.
Arguments v_icon {F} _.
Arguments v_category {F} _.
Arguments v_name {F} _.
Arguments v_pm25 {F} _.
Arguments v_pm10 {F} _.

Section RunVocabulary.

Context {F : Type} `{PyFloat F}.

(** The keys of [LOCATIONS], in order. *)
Definition location_keys (cfg : settings F) : list string :=
  map fst (LOCATIONS cfg).

(** A block of variables agrees with itself: its index is the AQI of its
    two concentrations, and its category, colour and trend are those of
    the index, the trend against the previous state of its key. *)
Definition block_ok (prev : gmap string state_entry)
    (block : string * location_vars F) : Prop :=
  let '(key, v) := block in
  calc_aqi (v_pm25 v) (v_pm10 v) = Ret (v_aqi v) /\
  match v_aqi v with
  | None =>
      v_category v = "No data"%string /\ v_color v = "128,128,128,180"%string /\
      v_icon v = "arrow_flat"%string
  | Some n =>
      (v_category v, v_color v) = category_and_color n /\
      v_icon v = trend_icon (Some n) (prev !! key ≫= st_aqi)
  end.

(** The sample that [main] appends to the history for a block. *)
Definition sample_of (now_ts : F) (v : location_vars F) : history_entry F :=
  {| ts := now_ts; aqi := v_aqi v; pm25 := v_pm25 v; pm10 := v_pm10 v |}.

End RunVocabulary.

(** A snapshot file that [load_json] cannot use: it is missing, it cannot
    be read, or its text does not decode. *)
Definition unusable {J : Type} (json_loads : string -> py J)
    (path : path_state) : Prop :=
  path_exists path = false \/
  (exists e, read_text path = Raise e) \/
  (exists text e, read_text path = Ret text /\ json_loads text = Raise e).


(** *** Further concrete data *)

(** A second payload for the concrete runs: both configured sensors
    report, sensor 80868 with a PM10 and a PM2.5 value, a temperature and
    a humidity that does not convert. *)
Definition vanya_report : reading float :=
  {| sensor_id := Some 80868; timestamp := Some "2024-05-01 10:04:10";
     timestamp_measured := None;
     latitude := Some 40.2%float; longitude := Some 44.5%float;
     sensordatavalues :=
       [ {| value_type := Some "P1"; value := Some 61.0%float |};
         {| value_type := Some "P2"; value := Some 22.4%float |};
         {| value_type := Some "temperature"; value := Some 18.5%float |};
         {| value_type := Some "humidity"; value := None |} ] |}.

(** An entry of sensor 83131 with the timestamp of [later] and another
    value. *)
Definition later_twin : reading float :=
  {| sensor_id := Some 83131; timestamp := Some "2024-05-01 10:02:30";
     timestamp_measured := None;
     latitude := Some 40.012%float; longitude := Some 44.489%float;
     sensordatavalues := [ {| value_type := Some "P2"; value := Some 33.0%float |} ] |}.

Definition both_report : http_response float :=
  {| raise_for_status := Ret tt;
     json := Ret (Readings [earlier; neighbour; later; stale; vanya_report]) |}.

Definition answer_both (lat lon : float) (radius_km : Z)
  : py (http_response float) := Ret both_report.

(** A history file that holds a list for a key that is configured no
    more, and two samples for "home", the first of them too old. *)
Definition old_history : gmap string (list (history_entry float)) :=
  {[ "office"%string := [ sample 1600000000.0 80 ];
     "home"%string := [ sample 1699999999.0 61; sample 1700082800.0 49 ] ]}.

Definition history_file_example : path_state :=
  {| path_exists := true; read_text := Ret "{'office': [...], 'home': [...]}" |}.

Definition loads_old_history (text : string)
  : py (gmap string (list (history_entry float))) :=
  if String.eqb text "{'office': [...], 'home': [...]}" then Ret old_history
  else Raise JSONDecodeError.

Definition now_iso_example : string := "2023-11-15T22:13:20+00:00".

(** The run of the concrete examples: no state file, the history file
    above, both sensors reporting. *)
Definition example_run (M : PyMath float) : py (run_output float) :=
  main source_settings answer_both loads_empty_object loads_old_history
    missing_file history_file_example now_iso_example now_example.

(** The block that run writes for "home": PM2.5 is 31.5, the index 92. *)
Definition home_block : location_vars float :=
  {| v_aqi := Some 92; v_color := "255,220,0,220"; v_icon := "arrow_flat";
     v_category := "Moderate"; v_name := "My Home";
     v_pm25 := Some 31.5%float; v_pm10 := None |}.









(** * Properties *)

(** ** The error monad *)

Lemma py_bind_ret {A B : Type} (a : A) (k : A -> py B) :
  (Ret a ≫= k) = k a.
Proof. reflexivity. Qed.


(** ** Trend *)

(** C6: the trend is flat whenever either value is absent, up when
    [new > old], down when [new < old], and flat when the two are equal;
    in particular [trend(x, x)] is flat for every [x]. *)
Theorem trend_icon_spec :
  (forall old : option Z, trend_icon None old = "arrow_flat") /\
  (forall new : option Z, trend_icon new None = "arrow_flat") /\
  (forall new old : Z, new > old -> trend_icon (Some new) (Some old) = "arrow_up") /\
  (forall new old : Z, new < old -> trend_icon (Some new) (Some old) = "arrow_down") /\
  (forall new old : Z, new = old -> trend_icon (Some new) (Some old) = "arrow_flat") /\
  (forall x : option Z, trend_icon x x = "arrow_flat").
Proof.
  repeat apply conj.
  - intros [o|]; reflexivity.
  - intros [n|]; reflexivity.
  - intros n o Hgt. simpl. destruct (Z.gtb_spec n o); [reflexivity | lia].
  - intros n o Hlt. simpl.
    destruct (Z.gtb_spec n o); [lia |].
    destruct (Z.ltb_spec n o); [reflexivity | lia].
  - intros n o ->. simpl.
    destruct (Z.gtb_spec o o); [lia |].
    destruct (Z.ltb_spec o o); [lia | reflexivity].
  - intros [x|]; [| reflexivity]. simpl.
    destruct (Z.gtb_spec x x); [lia |].
    destruct (Z.ltb_spec x x); [lia | reflexivity].
Qed.

Lemma trend_icon_spec_witness :
  trend_icon (Some 120) (Some 95) = "arrow_up" /\
  trend_icon (Some 42) (Some 57) = "arrow_down" /\
  trend_icon (Some 50) (Some 50) = "arrow_flat".
Proof.
  destruct trend_icon_spec as (_ & _ & Hup & Hdown & Hflat & _).
  split; [apply Hup; lia | split; [apply Hdown; lia | apply Hflat; reflexivity]].
Defined.

(** ** Combined AQI *)

Section CombinedAqi.

Context {F : Type} `{PyFloat F}.

Lemma calc_aqi_from_breakpoints_None (table : list breakpoint) :
  calc_aqi_from_breakpoints None table = Ret None.
Proof. reflexivity. Qed.

(** For any arithmetic: when the two sub-indices are computed, the combined
    AQI is their [worse_of]. *)
Lemma calc_aqi_worse_of (pm25 pm10 : option F) (a25 a10 : option Z) :
  calc_aqi_from_breakpoints pm25 PM25_BREAKPOINTS = Ret a25 ->
  calc_aqi_from_breakpoints pm10 PM10_BREAKPOINTS = Ret a10 ->
  calc_aqi pm25 pm10 = Ret (worse_of a25 a10).
Proof.
  intros H25 H10. unfold calc_aqi.
  assert (E25 : match pm25 with
                | Some _ => calc_aqi_from_breakpoints pm25 PM25_BREAKPOINTS
                | None => Ret None
                end = Ret a25).
  { destruct pm25; [exact H25 |]. rewrite <- H25. reflexivity. }
  assert (E10 : match pm10 with
                | Some _ => calc_aqi_from_breakpoints pm10 PM10_BREAKPOINTS
                | None => Ret None
                end = Ret a10).
  { destruct pm10; [exact H10 |]. rewrite <- H10. reflexivity. }
  rewrite E25, py_bind_ret, E10, py_bind_ret.
  destruct a25 as [x|], a10 as [y|]; reflexivity.
Qed.

End CombinedAqi.


(** ** Canonical values *)

(** C7: with the PM2.5 table, 35.4 gives 100, 35.5 gives 101, 12.0 gives 50
    and 12.1 gives 51, in binary64 arithmetic and in exact arithmetic. *)
Theorem pm25_boundary_values :
  calc_aqi_from_breakpoints (F:=float) (Some 35.4%float) PM25_BREAKPOINTS = Ret (Some 100) /\
  calc_aqi_from_breakpoints (F:=float) (Some 35.5%float) PM25_BREAKPOINTS = Ret (Some 101) /\
  calc_aqi_from_breakpoints (F:=float) (Some 12.0%float) PM25_BREAKPOINTS = Ret (Some 50) /\
  calc_aqi_from_breakpoints (F:=float) (Some 12.1%float) PM25_BREAKPOINTS = Ret (Some 51) /\
  calc_aqi_from_breakpoints (F:=Q) (Some 35.4%Q) PM25_BREAKPOINTS = Ret (Some 100) /\
  calc_aqi_from_breakpoints (F:=Q) (Some 35.5%Q) PM25_BREAKPOINTS = Ret (Some 101) /\
  calc_aqi_from_breakpoints (F:=Q) (Some 12.0%Q) PM25_BREAKPOINTS = Ret (Some 50) /\
  calc_aqi_from_breakpoints (F:=Q) (Some 12.1%Q) PM25_BREAKPOINTS = Ret (Some 51).
Proof. repeat apply conj; vm_compute; reflexivity. Qed.

(** ** Persisted snapshots *)

Section LoadJsonProperties.

Context {J : Type} (json_loads : string -> py J).

(** C9: loading a snapshot never raises; a missing file, a file that cannot
    be read and a file whose text is not JSON all give the supplied
    default, and a readable JSON file gives its decoded content. *)
Theorem load_json_falls_back (path : path_state) (default : J) :
  (exists j, load_json json_loads path default = Ret j) /\
  (path_exists path = false ->
   load_json json_loads path default = Ret default) /\
  (forall e, read_text path = Raise e ->
   load_json json_loads path default = Ret default) /\
  (forall text e, read_text path = Ret text -> json_loads text = Raise e ->
   load_json json_loads path default = Ret default) /\
  (forall text j, path_exists path = true -> read_text path = Ret text ->
   json_loads text = Ret j ->
   load_json json_loads path default = Ret j).
Proof.
  unfold load_json. repeat apply conj.
  - destruct (path_exists path); [| eauto].
    destruct (read_text path) as [text|e]; simpl; [| eauto].
    destruct (json_loads text); simpl; eauto.
  - intros ->. reflexivity.
  - intros e ->. destruct (path_exists path); reflexivity.
  - intros text e -> Hl. destruct (path_exists path); [| reflexivity].
    simpl. rewrite Hl. reflexivity.
  - intros text j -> -> Hl. simpl. rewrite Hl. reflexivity.
Qed.

End LoadJsonProperties.

Lemma load_json_falls_back_witness :
  load_json loads_empty_object missing_file ∅ = Ret ∅ /\
  load_json loads_empty_object truncated_file ∅ = Ret ∅.
Proof.
  destruct (load_json_falls_back loads_empty_object missing_file ∅)
    as (_ & Hmissing & _).
  destruct (load_json_falls_back loads_empty_object truncated_file ∅)
    as (_ & _ & _ & Hcorrupt & _).
  split.
  - apply Hmissing. reflexivity.
  - apply (Hcorrupt "{'home': {'aqi': 4"%string JSONDecodeError); reflexivity.
Defined.

(** ** Failures of the data source *)

Section FetchFailures.

Context {F : Type} `{PyFloat F} `{PyMath F} (cfg : settings F).
Context (requests_get : F -> F -> Z -> py (http_response F)).

Lemma fetch_raises (loc : location F) (e : exn) :
  request_fails cfg requests_get loc e ->
  fetch_sensor_data requests_get (lat loc) (lon loc) (loc_sensor_id loc)
    (RADIUS_KM cfg) = Raise e.
Proof.
  unfold fetch_sensor_data.
  intros [Hget | (resp & Hget & [Hst | [Hst Hjs]])]; rewrite Hget; simpl.
  - reflexivity.
  - rewrite Hst. reflexivity.
  - rewrite Hst. simpl. rewrite Hjs. reflexivity.
Qed.

Lemma fetch_empty (loc : location F) :
  request_is_empty cfg requests_get loc ->
  fetch_sensor_data requests_get (lat loc) (lon loc) (loc_sensor_id loc)
    (RADIUS_KM cfg) = Ret (None, None).
Proof.
  unfold fetch_sensor_data.
  intros (resp & data & Hget & Hst & Hjs & Hdata).
  rewrite Hget. simpl. rewrite Hst. simpl. rewrite Hjs. simpl.
  destruct Hdata as [-> | ->]; reflexivity.
Qed.

Lemma main_step_raises prev now_iso now_ts acc key (loc : location F) e :
  request_fails cfg requests_get loc e ->
  main_step cfg requests_get prev now_iso now_ts acc (key, loc) = Raise e.
Proof.
  intros Hf. unfold main_step. rewrite (fetch_raises loc e Hf). reflexivity.
Qed.

Lemma main_loop_app prev now_iso now_ts before after acc :
  main_loop cfg requests_get prev now_iso now_ts (before ++ after) acc =
  main_loop cfg requests_get prev now_iso now_ts before acc ≫=
  main_loop cfg requests_get prev now_iso now_ts after.
Proof.
  revert acc. induction before as [| item before IH]; intros acc; simpl.
  - reflexivity.
  - destruct (main_step cfg requests_get prev now_iso now_ts acc item)
      as [acc' | e]; simpl; [apply IH | reflexivity].
Qed.

(** C2, as the code has it: a body that is not a non-empty list gives
    [(None, None)]; an unreachable endpoint, an error status or a body that
    is not JSON makes [fetch_sensor_data] raise, and the loop of [main]
    stops there with that exception, whatever the locations before and
    after it. *)
Theorem failed_request_aborts_run (prev : gmap string state_entry)
    (now_iso : string) (now_ts : F)
    (before after : list (string * location F)) (key : string)
    (loc : location F) (acc acc' : run_output F) (e : exn) :
  (request_is_empty cfg requests_get loc ->
   fetch_sensor_data requests_get (lat loc) (lon loc) (loc_sensor_id loc)
     (RADIUS_KM cfg) = Ret (None, None)) /\
  (request_fails cfg requests_get loc e ->
   fetch_sensor_data requests_get (lat loc) (lon loc) (loc_sensor_id loc)
     (RADIUS_KM cfg) = Raise e /\
   (main_loop cfg requests_get prev now_iso now_ts before acc = Ret acc' ->
    main_loop cfg requests_get prev now_iso now_ts
      (before ++ (key, loc) :: after) acc = Raise e)).
Proof.
  split; [apply fetch_empty |].
  intros Hf. split; [apply fetch_raises; exact Hf |].
  intros Hbefore. rewrite main_loop_app, Hbefore, py_bind_ret.
  cbn [main_loop].
  rewrite (main_step_raises prev now_iso now_ts acc' key loc e Hf).
  reflexivity.
Qed.

End FetchFailures.

(** The data source answers every request with a server error: the first
    location raises, and so does the whole run. *)
Lemma http_error_is_not_absorbed :
  raise_for_status server_error = Raise HTTPError /\
  forall (M : PyMath float) (now_iso : string) (now_ts : float),
    let get := fun _ _ _ => Ret server_error in
    fetch_sensor_data get 40.0%float 44.5%float (Some 83131) 2
      = Raise HTTPError /\
    fetch_sensor_data get 40.0%float 44.5%float (Some 83131) 2
      <> Ret (None, None) /\
    main source_settings get loads_empty_object loads_no_history
      missing_file missing_file now_iso now_ts = Raise HTTPError.
Proof.
  split; [reflexivity |].
  intros M now_iso now_ts get. repeat apply conj.
  - reflexivity.
  - discriminate.
  - reflexivity.
Qed.

Lemma failed_request_aborts_run_witness :
  raise_for_status server_error = Raise HTTPError /\
  forall (M : PyMath float) (now_iso : string) (now_ts : float),
    main_loop source_settings (fun _ _ _ => Ret server_error) ∅ now_iso now_ts
      (LOCATIONS source_settings)
      {| out_lines := []; out_state := ∅; out_history := ∅ |}
    = Raise HTTPError.
Proof.
  split; [reflexivity |].
  intros M now_iso now_ts.
  pose (get := fun (_ _ : float) (_ : Z) => Ret server_error).
  pose (acc := {| out_lines := []; out_state := ∅;
                  out_history := (∅ : gmap string (list (history_entry float))) |}).
  pose (home := {| name := "My Home"; lat := f_lit 40.000000;
                   lon := f_lit 44.500000; loc_sensor_id := Some 83131 |}
                : location float).
  apply (failed_request_aborts_run source_settings get ∅ now_iso now_ts
           [] [("vanya"%string, {| name := "Vanya's Home"; lat := f_lit 40.200000;
                           lon := f_lit 44.500000;
                           loc_sensor_id := Some 80868 |})]
           "home"%string home acc acc HTTPError).
  - right. exists server_error. split; [reflexivity |]. left. reflexivity.
  - reflexivity.
Defined.

(** ** Sensor resolution *)

Lemma ascii_compare_lt_trans (a b c : ascii) :
  Ascii.compare a b = Lt -> Ascii.compare b c = Lt -> Ascii.compare a c = Lt.
Proof.
  unfold Ascii.compare. rewrite !N.compare_lt_iff. lia.
Qed.

Lemma string_compare_lt_trans (s1 s2 s3 : string) :
  String.compare s1 s2 = Lt -> String.compare s2 s3 = Lt ->
  String.compare s1 s3 = Lt.
Proof.
  revert s2 s3.
  induction s1 as [| a s1 IH]; intros [| b s2] [| c s3]; simpl;
    try congruence.
  destruct (Ascii.compare a b) eqn:Eab; try discriminate;
    destruct (Ascii.compare b c) eqn:Ebc; try discriminate; intros H12 H23.
  - apply Ascii.compare_eq_iff in Eab, Ebc. subst.
    assert (Ecc : Ascii.compare c c = Eq).
    { unfold Ascii.compare. apply N.compare_refl. }
    rewrite Ecc. eapply IH; eassumption.
  - apply Ascii.compare_eq_iff in Eab. subst. rewrite Ebc. reflexivity.
  - apply Ascii.compare_eq_iff in Ebc. subst. rewrite Eab. reflexivity.
  - rewrite (ascii_compare_lt_trans a b c Eab Ebc). reflexivity.
Qed.

Lemma string_ltb_trans (s1 s2 s3 : string) :
  String.ltb s1 s2 = true -> String.ltb s2 s3 = true -> String.ltb s1 s3 = true.
Proof.
  unfold String.ltb.
  destruct (String.compare s1 s2) eqn:E12; try discriminate.
  destruct (String.compare s2 s3) eqn:E23; try discriminate.
  intros _ _. rewrite (string_compare_lt_trans s1 s2 s3 E12 E23). reflexivity.
Qed.

Section SensorResolution.

Context {F : Type}.

Lemma truthy_Some (o : option string) :
  truthy o = true -> exists t, o = Some t.
Proof. destruct o as [t|]; [eauto | discriminate]. Qed.

Lemma in_snoc (r entry : reading F) (seen : list (reading F)) :
  In r (seen ++ [entry]) -> In r seen \/ r = entry.
Proof.
  intros [Hr | [<- | []]]%in_app_or; auto.
Qed.

Lemma string_ltb_irrefl (t : string) : String.ltb t t = false.
Proof.
  unfold String.ltb.
  destruct (String.compare t t) eqn:Ec; try reflexivity.
  pose proof (String.compare_antisym t t) as Ha.
  rewrite Ec in Ha. discriminate.
Qed.

(** An entry the loop skips leaves the invariant as it is. *)
Lemma by_id_invariant_skip (sid : Z) (seen : list (reading F))
    (st : option string * option (reading F)) (entry : reading F) :
  ~ usable sid entry ->
  by_id_invariant sid seen st ->
  by_id_invariant sid (seen ++ [entry]) st.
Proof.
  intros Hskip. destruct st as [[t|] [c|]]; simpl; try tauto.
  - intros (Hin & Hu & Hs & Hmax).
    split; [apply in_or_app; auto |].
    split; [exact Hu |]. split; [exact Hs |].
    intros r t' [Hr | ->]%in_snoc Hur Hsr; [eauto | contradiction].
  - intros Hnone r [Hr | ->]%in_snoc; [auto | exact Hskip].
Qed.

(** An entry the loop takes. *)
Lemma by_id_invariant_take (sid : Z) (seen : list (reading F))
    (entry : reading F) (te : string) :
  usable sid entry -> stamp entry = Some te ->
  (forall r t', In r seen -> usable sid r -> stamp r = Some t' ->
                String.ltb te t' = false) ->
  by_id_invariant sid (seen ++ [entry]) (Some te, Some entry).
Proof.
  intros Hu Hs Hmax. simpl.
  split; [apply in_or_app; right; left; reflexivity |].
  split; [exact Hu |]. split; [exact Hs |].
  intros r t' [Hr | ->]%in_snoc Hur Hsr; [eauto |].
  assert (t' = te) by congruence. subst t'. apply string_ltb_irrefl.
Qed.

Lemma by_id_step_invariant (sid : Z) (seen : list (reading F))
    (st : option string * option (reading F)) (entry : reading F) :
  by_id_invariant sid seen st ->
  by_id_invariant sid (seen ++ [entry]) (by_id_step sid st entry).
Proof.
  intros Hinv. destruct st as [latest cand]. unfold by_id_step.
  destruct (bool_decide (sensor_id entry = Some sid)) eqn:Eid; cbn [negb].
  2:{ apply bool_decide_eq_false in Eid.
      apply by_id_invariant_skip; [| exact Hinv]. intros [Hid _]. contradiction. }
  apply bool_decide_eq_true in Eid.
  destruct (truthy (stamp entry)) eqn:Etr; cbn [andb].
  2:{ apply by_id_invariant_skip; [| exact Hinv]. intros [_ Htr]. congruence. }
  assert (Hu : usable sid entry) by (split; assumption).
  destruct (truthy_Some _ Etr) as [te Hte]. rewrite Hte.
  destruct latest as [t|], cand as [c|]; simpl in Hinv; try contradiction.
  - destruct Hinv as (Hin & Huc & Hs & Hmax).
    destruct (String.ltb t te) eqn:Elt; cbn [andb].
    + apply by_id_invariant_take; [exact Hu | exact Hte |].
      intros r t' Hr Hur Hsr.
      destruct (String.ltb te t') eqn:E'; [| reflexivity].
      rewrite <- (Hmax r t' Hr Hur Hsr).
      symmetry. eapply string_ltb_trans; eassumption.
    + simpl.
      split; [apply in_or_app; auto |].
      split; [exact Huc |]. split; [exact Hs |].
      intros r t' [Hr | ->]%in_snoc Hur Hsr; [eauto |].
      congruence.
  - apply by_id_invariant_take; [exact Hu | exact Hte |].
    intros r t' Hr Hur _. exfalso. eapply Hinv; eassumption.
Qed.

Lemma by_id_fold_invariant (sid : Z) (data : list (reading F)) :
  by_id_invariant sid data (fold_left (by_id_step sid) data (None, None)).
Proof.
  induction data as [| entry data IH] using rev_ind.
  - simpl. intros r [].
  - rewrite fold_left_app. simpl. apply by_id_step_invariant. exact IH.
Qed.

Context `{PyFloat F}.

(** C1, as the code has it: when some entry of the wanted sensor carries a
    non-empty timestamp, the resolver takes an entry of that sensor with the
    greatest timestamp and never runs the nearest-distance selection,
    whatever the coordinates and distances are; entries of the wanted sensor
    that carry no timestamp are never taken by id, and when there is no
    other the resolver falls back to the nearest-distance selection. *)
Theorem preferred_sensor_resolution (sid : Z) (data : list (reading F)) :
  ((exists r, In r data /\ usable sid r) ->
   exists c, select_by_id sid data = Some c /\
     In c data /\ usable sid c /\
     (forall r t tc, In r data -> usable sid r ->
        stamp r = Some t -> stamp c = Some tc -> String.ltb tc t = false) /\
     forall (M : PyMath F) (lat lon : F),
       select_candidate lat lon (Some sid) data = Ret (Some c)) /\
  ((forall r, In r data -> ~ usable sid r) ->
   select_by_id sid data = None /\
   forall (M : PyMath F) (lat lon : F),
     select_candidate lat lon (Some sid) data = select_nearest lat lon data).
Proof.
  pose proof (by_id_fold_invariant sid data) as Hinv.
  unfold select_candidate, select_by_id.
  destruct (fold_left (by_id_step sid) data (None, None)) as [[t|] [c|]];
    simpl in *; try contradiction.
  - destruct Hinv as (Hin & Hu & Hs & Hmax). split.
    + intros _. exists c.
      split; [reflexivity |]. split; [exact Hin |]. split; [exact Hu |].
      split; [| reflexivity].
      intros r t' tc Hr Hur Hsr Hsc.
      assert (tc = t) by congruence. subst tc. eauto.
    + intros Hnone. exfalso. eapply Hnone; eassumption.
  - split.
    + intros (r & Hr & Hur). exfalso. eapply Hinv; eassumption.
    + intros _. split; reflexivity.
Qed.

End SensorResolution.

(** Sensor 83131 is in the payload, but its only entry has no timestamp:
    the first loop finds no candidate and the resolver goes on to the
    nearest-distance selection. *)
Lemma timestampless_match_falls_back :
  In stale [stale; neighbour] /\ sensor_id stale = Some 83131 /\
  select_by_id 83131 [stale; neighbour] = None /\
  forall (M : PyMath float) (lat lon : float),
    select_candidate lat lon (Some 83131) [stale; neighbour]
    = select_nearest lat lon [stale; neighbour].
Proof.
  repeat apply conj.
  - left. reflexivity.
  - reflexivity.
  - reflexivity.
  - intros M lat0 lon0. reflexivity.
Qed.

Lemma preferred_sensor_resolution_witness :
  select_by_id 83131 [earlier; neighbour; later; stale] = Some later /\
  forall (M : PyMath float) (lat lon : float),
    select_candidate lat lon (Some 83131) [earlier; neighbour; later; stale]
    = Ret (Some later).
Proof.
  destruct (preferred_sensor_resolution 83131 [earlier; neighbour; later; stale])
    as [Htake _].
  destruct Htake as (c & Hc & _ & _ & _ & Hcand).
  - exists earlier. split; [left; reflexivity | split; reflexivity].
  - assert (Hl : c = later).
    { vm_compute in Hc. injection Hc as <-. reflexivity. }
    subst c. split; [reflexivity | exact Hcand].
Defined.

(** ** Order of binary64 floats *)

Section Binary64Order.

Import B64.

Lemma digits2_size (m : positive) : digits2_pos m = Pos.size m.
Proof. induction m; simpl; congruence. Qed.

Lemma digits2_bounds (m : positive) :
  2 ^ (Z.pos (digits2_pos m) - 1) <= Z.pos m < 2 ^ Z.pos (digits2_pos m).
Proof.
  rewrite digits2_size. split.
  - pose proof (Pos.size_le m) as Hle.
    assert (H2 : Z.pos (2 ^ Pos.size m) <= Z.pos m~0) by lia.
    rewrite Pos2Z.inj_pow in H2.
    replace (Z.pos (Pos.size m)) with (Z.succ (Z.pos (Pos.size m) - 1)) in H2 by lia.
    rewrite Z.pow_succ_r in H2 by lia. lia.
  - pose proof (Pos.size_gt m) as Hgt.
    assert (H2 : Z.pos m < Z.pos (2 ^ Pos.size m)) by lia.
    rewrite Pos2Z.inj_pow in H2. exact H2.
Qed.

(** What validity says about a finite float. *)
Lemma bounded_inv (m : positive) (e : Z) :
  bounded prec emax m e = true ->
  -1074 <= e <= 971 /\ Z.pos (digits2_pos m) <= 53 /\
  (-1074 < e -> Z.pos (digits2_pos m) = 53).
Proof.
  unfold bounded, canonical_mantissa, fexp, emin, prec, emax.
  intros [Hc He]%andb_prop.
  apply Z.eqb_eq in Hc. apply Z.leb_le in He. 
  change (3 - 1024 - 53) with (-1074) in Hc.
  change (1024 - 53) with 971 in He. lia.
Qed.

Lemma finite_key_bounds (m : positive) (e : Z) :
  bounded prec emax m e = true ->
  0 < Z.pos m * 2 ^ (e + 1074) < huge /\
  (-1074 < e -> 2 ^ (e + 1126) <= Z.pos m * 2 ^ (e + 1074)) /\
  Z.pos m * 2 ^ (e + 1074) < 2 ^ (e + 1127).
Proof.
  intros (He & Hd & Hn)%bounded_inv.
  pose proof (digits2_bounds m) as [Hlo Hhi].
  assert (Hp : 0 < 2 ^ (e + 1074)) by (apply Z.pow_pos_nonneg; lia).
  assert (Hm : Z.pos m < 2 ^ 53).
  { eapply Z.lt_le_trans; [exact Hhi |]. apply Z.pow_le_mono_r; lia. }
  assert (Hup : Z.pos m * 2 ^ (e + 1074) < 2 ^ (e + 1127)).
  { replace (e + 1127) with (53 + (e + 1074)) by lia.
    rewrite (Z.pow_add_r 2 53 (e + 1074)) by lia.
    apply Z.mul_lt_mono_pos_r; assumption. }
  repeat apply conj.
  - apply Z.mul_pos_pos; [lia | exact Hp].
  - eapply Z.lt_le_trans; [exact Hup |]. unfold huge.
    apply Z.pow_le_mono_r; lia.
  - intros Hgt. specialize (Hn Hgt). rewrite Hn in Hlo.
    replace (e + 1126) with (52 + (e + 1074)) by lia.
    rewrite (Z.pow_add_r 2 52 (e + 1074)) by lia. change (53 - 1) with 52 in Hlo.
    apply Z.mul_le_mono_nonneg_r; [lia | exact Hlo].
  - exact Hup.
Qed.

Lemma SFcompare_key (x y : spec_float) :
  valid_binary x = true -> valid_binary y = true ->
  is_nan_sf x = false -> is_nan_sf y = false ->
  SFcompare x y = Some (key x ?= key y).
Proof.
  destruct x as [sx | sx | | sx mx ex], y as [sy | sy | | sy my ey];
    try discriminate; intros Hx Hy _ _; cbn [SFcompare key].
  - reflexivity.
  - destruct sy; reflexivity.
  - apply finite_key_bounds in Hy. destruct Hy as ((Hy & _) & _).
    destruct sy; f_equal; symmetry;
      [apply Z.compare_gt_iff | apply Z.compare_lt_iff]; lia.
  - destruct sx; reflexivity.
  - destruct sx, sy; reflexivity.
  - apply finite_key_bounds in Hy. destruct Hy as ((Hy & Hy') & _).
    destruct sx, sy; f_equal; symmetry;
      first [apply Z.compare_gt_iff; lia | apply Z.compare_lt_iff; lia].
  - apply finite_key_bounds in Hx. destruct Hx as ((Hx & _) & _).
    destruct sx; f_equal; symmetry;
      [apply Z.compare_lt_iff | apply Z.compare_gt_iff]; lia.
  - apply finite_key_bounds in Hx. destruct Hx as ((Hx & Hx') & _).
    destruct sx, sy; f_equal; symmetry;
      first [apply Z.compare_gt_iff; lia | apply Z.compare_lt_iff; lia].
  - simpl in Hx, Hy.
    pose proof (bounded_inv _ _ Hx) as (Hex & _).
    pose proof (bounded_inv _ _ Hy) as (Hey & _).
    apply finite_key_bounds in Hx, Hy.
    destruct Hx as ((Hx0 & _) & Hxlo & Hxhi), Hy as ((Hy0 & _) & Hylo & Hyhi).
    assert (Hlt : forall e1 e2 v1 v2, e1 < e2 -> -1074 <= e1 ->
                    v1 < 2 ^ (e1 + 1127) -> 2 ^ (e2 + 1126) <= v2 -> v1 < v2).
    { intros e1 e2 v1 v2 H12 H1 Hv1 Hv2.
      eapply Z.lt_le_trans; [exact Hv1 |].
      eapply Z.le_trans; [| exact Hv2]. apply Z.pow_le_mono_r; lia. }
    assert (Heq : ex = ey -> (Z.pos mx * 2 ^ (ex + 1074) ?= Z.pos my * 2 ^ (ey + 1074))
                             = (mx ?= my)%positive).
    { intros ->. rewrite <- Zmult_compare_compat_r; [reflexivity |].
      apply Z.lt_gt. apply Z.pow_pos_nonneg; lia. }
    change (Pos.compare_cont Eq mx my) with (mx ?= my)%positive.
    destruct sx, sy; f_equal.
    + destruct (Z.compare_spec ex ey) as [E | E | E].
      * rewrite Z.compare_opp, <- Heq by exact E.
        symmetry. apply Z.compare_antisym.
      * symmetry. apply Z.compare_gt_iff.
        specialize (Hlt ex ey _ _ E ltac:(lia) Hxhi (Hylo ltac:(lia))). lia.
      * symmetry. apply Z.compare_lt_iff.
        specialize (Hlt ey ex _ _ E ltac:(lia) Hyhi (Hxlo ltac:(lia))). lia.
    + symmetry. apply Z.compare_lt_iff. lia.
    + symmetry. apply Z.compare_gt_iff. lia.
    + destruct (Z.compare_spec ex ey) as [E | E | E].
      * rewrite Heq by exact E. reflexivity.
      * symmetry. apply Z.compare_lt_iff.
        exact (Hlt ex ey _ _ E ltac:(lia) Hxhi (Hylo ltac:(lia))).
      * symmetry. apply Z.compare_gt_iff.
        specialize (Hlt ey ex _ _ E ltac:(lia) Hyhi (Hxlo ltac:(lia))). lia.
Qed.

Lemma SFcompare_refl (x : spec_float) :
  is_nan_sf x = false -> SFcompare x x = Some Eq.
Proof.
  destruct x as [s | s | | s m e]; try discriminate; intros _; simpl.
  - reflexivity.
  - destruct s; reflexivity.
  - change (PosDef.Pos.compare_cont Eq m m) with (m ?= m)%positive.
    pose proof (Z.compare_refl e) as He. pose proof (Pos.compare_refl m) as Hm.
    destruct s; rewrite He, Hm; reflexivity.
Qed.

Lemma is_nan_spec (x : float) : is_nan x = is_nan_sf (Prim2SF x).
Proof.
  unfold is_nan. rewrite FloatAxioms.eqb_spec. unfold SFeqb.
  destruct (is_nan_sf (Prim2SF x)) eqn:E.
  - destruct (Prim2SF x); try discriminate. reflexivity.
  - rewrite SFcompare_refl by exact E. reflexivity.
Qed.

Lemma compare_key (x y : float) :
  is_nan x = false -> is_nan y = false ->
  SFcompare (Prim2SF x) (Prim2SF y) = Some (fkey x ?= fkey y).
Proof.
  rewrite !is_nan_spec. intros Hx Hy.
  apply SFcompare_key; auto using Prim2SF_valid.
Qed.

Lemma leb_key (x y : float) :
  is_nan x = false -> is_nan y = false ->
  (x <=? y)%float = (fkey x <=? fkey y).
Proof.
  intros Hx Hy. rewrite FloatAxioms.leb_spec. unfold SFleb.
  rewrite (compare_key x y Hx Hy). unfold Z.leb.
  destruct (fkey x ?= fkey y); reflexivity.
Qed.

Lemma ltb_key (x y : float) :
  is_nan x = false -> is_nan y = false ->
  (x <? y)%float = (fkey x <? fkey y).
Proof.
  intros Hx Hy. rewrite FloatAxioms.ltb_spec. unfold SFltb.
  rewrite (compare_key x y Hx Hy). unfold Z.ltb.
  destruct (fkey x ?= fkey y); reflexivity.
Qed.

Lemma nan_compare (x y : float) :
  is_nan x = true ->
  (x <=? y)%float = false /\ (y <=? x)%float = false /\
  (x <? y)%float = false /\ (y <? x)%float = false.
Proof.
  rewrite is_nan_spec. intros Hx.
  rewrite !FloatAxioms.leb_spec, !FloatAxioms.ltb_spec. unfold SFleb, SFltb.
  destruct (Prim2SF x); try discriminate.
  destruct (Prim2SF y); repeat split; reflexivity.
Qed.

(** Subtracting a finite float from itself gives [+0]. *)
Lemma sub_diag (x : float) :
  is_finite x = true -> Prim2SF (x - x) = S754_zero false.
Proof.
  unfold is_finite, is_infinity.
  rewrite is_nan_spec, FloatAxioms.eqb_spec, abs_spec.
  change (Prim2SF infinity) with (S754_infinity false).
  rewrite sub_spec. unfold SF64sub.
  destruct (Prim2SF x) as [s | s | | s m e]; cbn [is_nan_sf SFabs SFeqb SFcompare orb negb];
    try discriminate; intros _.
  - destruct s; reflexivity.
  - cbn [SFsub]. rewrite Z.sub_diag. reflexivity.
Qed.

End Binary64Order.

(** ** Where the index is absent *)

Section BucketLoop.

Context {F : Type} `{PyFloat F}.

Lemma bucket_loop_None_iff (C : F) (table : list breakpoint) :
  bucket_loop C table = Ret None <->
  Forall (fun b => in_bucket C b = false) table.
Proof.
  induction table as [| b rest IH]; simpl.
  - split; [constructor | reflexivity].
  - destruct (in_bucket C b) eqn:Eb.
    + split.
      * destruct (interpolate C b) as [x|]; simpl; [| discriminate].
        destruct (f_round x); simpl; discriminate.
      * intros Hall. apply Forall_cons_iff in Hall. destruct Hall. congruence.
    + rewrite IH. split.
      * intros Hall. constructor; assumption.
      * intros Hall. apply Forall_cons_iff in Hall. tauto.
Qed.

End BucketLoop.

Section Binary64Buckets.

Import B64.

Lemma in_bucket_key (C lo hi : float) (il ih : Z) :
  is_nan C = false -> is_nan lo = false -> is_nan hi = false ->
  in_bucket C (lo, hi, il, ih) = false <->
  fkey C < fkey lo \/ fkey hi < fkey C.
Proof.
  intros HC Hlo Hhi. cbn [in_bucket f_le binary64].
  rewrite (leb_key lo C Hlo HC), (leb_key C hi HC Hhi).
  rewrite andb_false_iff, !Z.leb_gt. reflexivity.
Qed.

Lemma in_bucket_nan (C lo hi : float) (il ih : Z) :
  is_nan C = true -> in_bucket C (lo, hi, il, ih) = false.
Proof.
  intros HC. cbn [in_bucket f_le binary64].
  destruct (nan_compare C lo HC) as (_ & -> & _). reflexivity.
Qed.

Lemma strictly_between_key (lo hi C : float) :
  is_nan C = false -> is_nan lo = false -> is_nan hi = false ->
  strictly_between lo hi C = true <-> fkey lo < fkey C < fkey hi.
Proof.
  intros HC Hlo Hhi. unfold strictly_between.
  rewrite (ltb_key lo C Hlo HC), (ltb_key C hi HC Hhi).
  rewrite andb_true_iff, !Z.ltb_lt. reflexivity.
Qed.

Lemma ltb_key_iff (x y : float) :
  is_nan x = false -> is_nan y = false ->
  (x <? y)%float = true <-> fkey x < fkey y.
Proof.
  intros Hx Hy. rewrite (ltb_key x y Hx Hy). apply Z.ltb_lt.
Qed.

Ltac literal_floats :=
  repeat match goal with
         | |- context [f_lit ?q] =>
             let v := eval vm_compute in (f_lit (F:=float) q) in
             change (f_lit (F:=float) q) with v
         end.

Ltac order_by_keys HC :=
  repeat first
    [ rewrite in_bucket_key by (exact HC || reflexivity)
    | rewrite strictly_between_key by (exact HC || reflexivity)
    | rewrite ltb_key_iff by (exact HC || reflexivity) ].

Ltac literal_keys :=
  repeat match goal with
         | |- context [fkey ?c] =>
             let v := eval vm_compute in (fkey c) in
             change (fkey c) with v
         end.

(** The index is absent exactly when the concentration lies in no bucket:
    below 0, above the top bound, strictly between two consecutive buckets,
    or NaN. *)
Lemma absent_iff_outside (C : float) :
  (calc_aqi_from_breakpoints (Some C) PM25_BREAKPOINTS = Ret None <->
   is_nan C = true \/ (C <? 0.0)%float = true \/ (500.4 <? C)%float = true \/
   strictly_between 12.0 12.1 C = true \/
   strictly_between 35.4 35.5 C = true \/
   strictly_between 55.4 55.5 C = true \/
   strictly_between 150.4 150.5 C = true \/
   strictly_between 250.4 250.5 C = true) /\
  (calc_aqi_from_breakpoints (Some C) PM10_BREAKPOINTS = Ret None <->
   is_nan C = true \/ (C <? 0)%float = true \/ (604 <? C)%float = true \/
   strictly_between 54 55 C = true \/
   strictly_between 154 155 C = true \/
   strictly_between 254 255 C = true \/
   strictly_between 354 355 C = true \/
   strictly_between 424 425 C = true).
Proof.
  cbn [calc_aqi_from_breakpoints]. rewrite !bucket_loop_None_iff.
  cbv [PM25_BREAKPOINTS PM10_BREAKPOINTS from_literals PM25_rows PM10_rows
       row map].
  rewrite !Forall_cons_iff, !Forall_nil_iff.
  destruct (is_nan C) eqn:HC.
  - rewrite !in_bucket_nan by exact HC. tauto.
  - literal_floats. order_by_keys HC.
    generalize (fkey C). intros k. literal_keys.
    split; split; intros Hk; lia.
Qed.

End Binary64Buckets.


(** ** Rounding *)

(** The rounded value is within one half, and even on a tie. *)
Lemma round_half_even_spec (q : Q) :
  let r := round_half_even q in
  let a := Qnum q in
  let d := Z.pos (Qden q) in
  2 * d * r - d <= 2 * a <= 2 * d * r + d /\
  (2 * a = 2 * d * r + d -> Z.even r = true) /\
  (2 * a = 2 * d * r - d -> Z.even r = true).
Proof.
  unfold round_half_even. cbv zeta.
  set (a := Qnum q). set (d := Z.pos (Qden q)).
  assert (Hd : 0 < d) by (unfold d; lia).
  pose proof (Z.div_mod a d ltac:(lia)) as Hdm.
  pose proof (Z.mod_pos_bound a d Hd) as Hm.
  set (n := a / d) in *. set (m := a mod d) in *.
  destruct (Z.compare_spec (2 * m) d) as [E | E | E].
  - destruct (Z.even n) eqn:En.
    + repeat split; try nia. intros _. exact En.
    + repeat split; try nia. intros _.
      rewrite Z.even_add, En. reflexivity.
  - repeat split; try nia.
  - repeat split; try nia.
Qed.

Lemma round_half_even_monotone (q1 q2 : Q) :
  (q1 <= q2)%Q -> round_half_even q1 <= round_half_even q2.
Proof.
  unfold Qle. intros Hle.
  pose proof (round_half_even_spec q1) as (H1 & _ & Hlow1).
  pose proof (round_half_even_spec q2) as (H2 & Hup2 & _).
  cbv zeta in *.
  set (r1 := round_half_even q1) in *. set (r2 := round_half_even q2) in *.
  set (a1 := Qnum q1) in *. set (a2 := Qnum q2) in *.
  set (d1 := Z.pos (Qden q1)) in *. set (d2 := Z.pos (Qden q2)) in *.
  assert (Hd1 : 0 < d1) by (unfold d1; lia).
  assert (Hd2 : 0 < d2) by (unfold d2; lia).
  destruct (Z_le_gt_dec r1 r2) as [Hok | Hgt]; [exact Hok | exfalso].
  assert (Hchain : 2 * (d1 * d2) * r1 - d1 * d2 <= 2 * (d1 * d2) * r2 + d1 * d2) by nia.
  assert (Hr : r1 = r2 + 1) by nia.
  assert (E1 : 2 * a1 = 2 * d1 * r1 - d1) by nia.
  assert (E2 : 2 * a2 = 2 * d2 * r2 + d2) by nia.
  specialize (Hlow1 E1). specialize (Hup2 E2).
  rewrite Hr, Z.even_add, Hup2 in Hlow1. discriminate.
Qed.

Lemma round_half_even_tie (q : Q) (n : Z) :
  (q == inject_Z n + (1 # 2))%Q ->
  round_half_even q = if Z.even n then n else n + 1.
Proof.
  intros Hq.
  assert (E : 2 * Qnum q = (2 * n + 1) * Z.pos (Qden q)).
  { unfold Qeq in Hq. simpl in Hq. lia. }
  unfold round_half_even. cbv zeta.
  set (a := Qnum q) in *. set (d := Z.pos (Qden q)) in *.
  assert (Hd : 0 < d) by (unfold d; lia).
  pose proof (Z.div_mod a d ltac:(lia)) as Hdm.
  pose proof (Z.mod_pos_bound a d Hd) as Hm.
  set (k := a / d) in *. set (m := a mod d) in *.
  assert (Hk : k = n) by nia.
  assert (Hm2 : 2 * m = d) by nia.
  rewrite Hm2, Z.compare_refl, Hk. reflexivity.
Qed.

Section FirstBucket.

Context {F : Type} `{PyFloat F}.

Lemma bucket_loop_first (C : F) (table : list breakpoint) :
  bucket_loop C table =
  match first_bucket C table with
  | Some b => raw ← interpolate C b; n ← f_round raw; Ret (Some n)
  | None => Ret None
  end.
Proof.
  unfold first_bucket.
  induction table as [| b rest IH]; simpl; [reflexivity |].
  destruct (in_bucket C b); [reflexivity | exact IH].
Qed.

End FirstBucket.

Lemma b64_round_exact (x : float) (q : Q) :
  B64.exact_value (Prim2SF x) = Some q ->
  B64.round x = Ret (round_half_even q).
Proof.
  unfold B64.round.
  destruct (Prim2SF x); simpl; intros Hq; try discriminate;
    injection Hq as <-; reflexivity.
Qed.

(** C10: [round] is Python's, which rounds a tie to the even neighbour.
    Whenever the interpolated value is exactly [n + 1/2], the index is [n]
    when [n] is even and [n + 1] when [n] is odd: an even integer in both
    cases, and not the one farther from zero when [n] is even and positive. *)
Theorem round_ties_to_even (C : float) (table : list breakpoint)
    (b : breakpoint) (raw : float) (q : Q) (n : Z) :
  first_bucket C table = Some b ->
  interpolate C b = Ret raw ->
  B64.exact_value (Prim2SF raw) = Some q ->
  (q == inject_Z n + (1 # 2))%Q ->
  calc_aqi_from_breakpoints (Some C) table
    = Ret (Some (if Z.even n then n else n + 1)) /\
  Z.even (if Z.even n then n else n + 1) = true.
Proof.
  intros Hb Hraw Hq Htie. split.
  - cbn [calc_aqi_from_breakpoints]. rewrite bucket_loop_first, Hb, Hraw.
    rewrite py_bind_ret. cbn [f_round binary64].
    rewrite (b64_round_exact raw q Hq), py_bind_ret.
    rewrite (round_half_even_tie q n Htie). reflexivity.
  - destruct (Z.even n) eqn:En; [exact En |].
    rewrite Z.even_add, En. reflexivity.
Qed.

Lemma round_ties_to_even_witness :
  calc_aqi_from_breakpoints (F:=float) (Some 13.5%float) PM10_BREAKPOINTS
    = Ret (Some 12) /\
  calc_aqi_from_breakpoints (F:=float) (Some 389.5%float) PM10_BREAKPOINTS
    = Ret (Some 250).
Proof.
  split.
  - eapply (round_ties_to_even 13.5%float PM10_BREAKPOINTS
              (f_lit 0, f_lit 54, 0, 50) 12.5%float _ 12).
    + vm_compute; reflexivity.
    + vm_compute; reflexivity.
    + vm_compute; reflexivity.
    + vm_compute; reflexivity.
  - eapply (round_ties_to_even 389.5%float PM10_BREAKPOINTS
              (f_lit 355, f_lit 424, 201, 300) 250.5%float _ 250).
    + vm_compute; reflexivity.
    + vm_compute; reflexivity.
    + vm_compute; reflexivity.
    + vm_compute; reflexivity.
Defined.

(** ** Monotonicity within a bucket, in exact arithmetic *)

Lemma exact_index_monotone (b : @breakpoint Q) (C1 C2 : Q) :
  bucket_ok b -> (C1 <= C2)%Q -> (exact_index C1 b <= exact_index C2 b)%Q.
Proof.
  destruct b as [[[lo hi] il] ih]. cbn [bucket_ok exact_index].
  intros [Hlt Hi] HC.
  apply Qplus_le_l.
  rewrite (Qmult_comm _ (C1 - lo)), (Qmult_comm _ (C2 - lo)).
  apply Qmult_le_compat_r; [lra |].
  apply Qle_shift_div_l; [lra |].
  rewrite Qmult_0_l. rewrite <- (Zle_Qle 0). lia.
Qed.

Lemma exact_interpolate (b : @breakpoint Q) (C : Q) :
  bucket_ok b -> interpolate C b = Ret (exact_index C b).
Proof.
  destruct b as [[[lo hi] il] ih]. cbn [bucket_ok interpolate exact_index].
  intros [Hlt _]. cbn [f_div f_of_Z f_sub f_add f_mul exact].
  unfold Exact.div.
  destruct (Qeq_bool (hi - lo) 0) eqn:E.
  - apply Qeq_bool_eq in E. lra.
  - reflexivity.
Qed.

Lemma exact_bucket_loop (table : list (@breakpoint Q)) (b : @breakpoint Q)
    (C : Q) :
  ascending table -> In b table -> in_bucket C b = true ->
  bucket_loop C table = Ret (Some (round_half_even (exact_index C b))).
Proof.
  induction table as [| b0 rest IH]; [intros _ [] |].
  intros (Hok & Hbefore & Hrest) Hin HC. cbn [bucket_loop].
  destruct Hin as [-> | Hin].
  - rewrite HC, (exact_interpolate b C Hok). reflexivity.
  - assert (H0 : in_bucket C b0 = false).
    { rewrite List.Forall_forall in Hbefore. specialize (Hbefore b Hin).
      destruct b0 as [[[lo0 hi0] il0] ih0], b as [[[lo hi] il] ih].
      cbn [ends_before in_bucket f_le exact] in *.
      apply andb_prop in HC. destruct HC as [Hlo _].
      apply Qle_bool_iff in Hlo.
      apply andb_false_iff. right.
      destruct (Qle_bool C hi0) eqn:E; [| reflexivity].
      apply Qle_bool_iff in E. lra. }
    rewrite H0. apply IH; assumption.
Qed.

Ltac ascending_step :=
  lazymatch goal with
  | |- _ /\ _ => split
  | |- Forall _ [] => apply Forall_nil
  | |- Forall _ (_ :: _) => apply Forall_cons
  | |- True => exact I
  | |- (_ < _)%Q => reflexivity
  | |- (_ <= _)%Z => discriminate
  end.

Lemma exact_tables_ascending :
  ascending PM25_BREAKPOINTS /\ ascending PM10_BREAKPOINTS.
Proof.
  cbv [PM25_BREAKPOINTS PM10_BREAKPOINTS from_literals PM25_rows PM10_rows
       row map f_lit exact ascending bucket_ok ends_before].
  repeat ascending_step.
Qed.

(** In exact arithmetic, in either table, two concentrations [C1 <= C2] of
    one bucket get indices [a1 <= a2]. *)
Lemma exact_aqi_monotone_within_bucket (table : list (@breakpoint Q))
    (b : @breakpoint Q) (C1 C2 : Q) :
  table = PM25_BREAKPOINTS \/ table = PM10_BREAKPOINTS ->
  In b table ->
  in_bucket C1 b = true -> in_bucket C2 b = true -> (C1 <= C2)%Q ->
  exists a1 a2,
    calc_aqi_from_breakpoints (Some C1) table = Ret (Some a1) /\
    calc_aqi_from_breakpoints (Some C2) table = Ret (Some a2) /\
    a1 <= a2.
Proof.
  intros Htable Hin H1 H2 HC.
  assert (Hasc : ascending table).
  { destruct Htable as [-> | ->]; apply exact_tables_ascending. }
  assert (Hok : bucket_ok b).
  { clear - Hasc Hin. induction table as [| b0 rest IH]; [destruct Hin |].
    destruct Hasc as (Hok & _ & Hrest).
    destruct Hin as [-> | Hin]; [exact Hok | apply IH; assumption]. }
  exists (round_half_even (exact_index C1 b)),
         (round_half_even (exact_index C2 b)).
  cbn [calc_aqi_from_breakpoints].
  rewrite (exact_bucket_loop table b C1 Hasc Hin H1).
  rewrite (exact_bucket_loop table b C2 Hasc Hin H2).
  repeat split.
  apply round_half_even_monotone. apply exact_index_monotone; assumption.
Qed.


(** ** The gaps between buckets *)

(** 12.05 lies between the first two PM2.5 buckets and 54.5 between the
    first two PM10 buckets: both are at least 0 and at most the top bound,
    and neither gets an index. *)
Lemma concentration_in_a_gap_is_absent :
  (0 <=? 12.05)%float = true /\ (12.05 <=? 500.4)%float = true /\
  calc_aqi_from_breakpoints (F:=float) (Some 12.05%float) PM25_BREAKPOINTS
    = Ret None /\
  (0 <=? 54.5)%float = true /\ (54.5 <=? 604)%float = true /\
  calc_aqi_from_breakpoints (F:=float) (Some 54.5%float) PM10_BREAKPOINTS
    = Ret None /\
  calc_aqi_from_breakpoints (F:=Q) (Some 12.05%Q) PM25_BREAKPOINTS = Ret None /\
  calc_aqi_from_breakpoints (F:=Q) (Some 54.5%Q) PM10_BREAKPOINTS = Ret None.
Proof. repeat apply conj; vm_compute; reflexivity. Qed.

(** ** Rounding of the binary64 operations *)

Section Binary64Rounding.

Import B64.

(** Nearest integer to V/U, ties to even, stated without division. *)
Lemma nearest_even_monotone (U V1 V2 z1 z2 : Z) :
  0 < U -> nearest_even V1 U z1 -> nearest_even V2 U z2 ->
  V1 <= V2 -> z1 <= z2.
Proof.
  intros HU (H1 & _ & Hlow1) (H2 & Hup2 & _) HV.
  destruct (Z_le_gt_dec z1 z2) as [Hok | Hgt]; [exact Hok | exfalso].
  assert (Hr : z1 = z2 + 1) by nia.
  subst z1.
  assert (E1 : 2 * V1 = 2 * U * (z2 + 1) - U) by nia.
  assert (E2 : 2 * V2 = 2 * U * z2 + U) by nia.
  specialize (Hlow1 E1). specialize (Hup2 E2).
  rewrite Z.even_add, Hup2 in Hlow1. discriminate.
Qed.

Lemma pow2_pos (n : Z) : 0 <= n -> 0 < 2 ^ n.
Proof. intros. apply Z.pow_pos_nonneg; lia. Qed.

Lemma pow2_le (a b : Z) : 0 <= a <= b -> 2 ^ a <= 2 ^ b.
Proof. intros. apply Z.pow_le_mono_r; lia. Qed.

Lemma pow2_lt (a b : Z) : 0 <= a < b -> 2 ^ a < 2 ^ b.
Proof. intros. apply Z.pow_lt_mono_r; lia. Qed.

Lemma pow2_split (a b : Z) : 0 <= a -> 0 <= b -> 2 ^ (a + b) = 2 ^ a * 2 ^ b.
Proof. intros. apply Z.pow_add_r; lia. Qed.

Lemma rounds_to_monotone (V1 V2 k1 k2 : Z) :
  rounds_to V1 k1 -> rounds_to V2 k2 -> V1 <= V2 -> k1 <= k2.
Proof.
  intros (g1 & f1 & z1 & [Hlo1 Hhi1] & Hg1 & Hf1 & Hn1 & ->)
         (g2 & f2 & z2 & [Hlo2 Hhi2] & Hg2 & Hf2 & Hn2 & ->) HV.
  assert (Hg : g1 <= g2).
  { destruct (Z_le_gt_dec g1 g2) as [Hok | Hgt]; [exact Hok | exfalso].
    pose proof (pow2_le (g2 + scale) (g1 - 1 + scale) ltac:(lia)). lia. }
  assert (Hf : f1 <= f2) by lia.
  assert (HfS1 : 0 <= f1 + scale) by (unfold scale; lia).
  assert (HfS2 : 0 <= f2 + scale) by (unfold scale; lia).
  assert (HU1 : 0 < 2 ^ (f1 + scale)) by (apply pow2_pos; lia).
  assert (HU2 : 0 < 2 ^ (f2 + scale)) by (apply pow2_pos; lia).
  assert (HP1 : 0 < 2 ^ (f1 + 1074)) by (apply pow2_pos; lia).
  assert (HP2 : 0 < 2 ^ (f2 + 1074)) by (apply pow2_pos; lia).
  assert (Hz2 : 0 <= z2).
  { destruct Hn2 as ([_ Hup] & _).
    assert (0 < V2) by (pose proof (pow2_pos (g2 - 1 + scale) Hg2); lia). nia. }
  destruct (Z.eq_dec f1 f2) as [Heq | Hne].
  - rewrite Heq in *.
    pose proof (nearest_even_monotone _ _ _ _ _ HU2 Hn1 Hn2 HV) as Hz.
    apply Z.mul_le_mono_nonneg_r; lia.
  - assert (Hf2' : f2 = g2 - 53) by lia.
    assert (Hg' : g1 < g2) by lia.
    (* the larger value rounds to at least 2^(g2-1) *)
    assert (Hbig : 2 ^ (g2 - 1 + 1074) <= z2 * 2 ^ (f2 + 1074)).
    { assert (Hz : 2 ^ 52 <= z2).
      { destruct Hn2 as ([_ Hup] & _).
        assert (E : 2 ^ (g2 - 1 + scale) = 2 ^ 52 * 2 ^ (f2 + scale)).
        { rewrite <- pow2_split by lia. f_equal. lia. }
        rewrite E in Hlo2.
        assert (2 * (2 ^ 52 * 2 ^ (f2 + scale)) <= 2 * 2 ^ (f2 + scale) * z2 + 2 ^ (f2 + scale)) by lia.
        assert (2 * 2 ^ 52 <= 2 * z2 + 1) by nia.
        change (2 ^ 52) with 4503599627370496 in *. lia. }
      replace (g2 - 1 + 1074) with (52 + (f2 + 1074)) by lia.
      rewrite pow2_split by lia.
      apply Z.mul_le_mono_nonneg_r; lia. }
    eapply Z.le_trans; [| exact Hbig].
    destruct (Z_lt_le_dec g1 f1) as [Hunder | Hnorm].
    + (* far below the smallest subnormal: rounds to zero or less *)
      assert (Hz1 : z1 <= 0).
      { destruct Hn1 as ([Hlow _] & _).
        assert (E : 2 * 2 ^ (g1 + scale) <= 2 ^ (f1 + scale)).
        { change 2 with (2 ^ 1) at 1. rewrite <- pow2_split by lia.
          apply pow2_le. lia. }
        nia. }
      pose proof (pow2_pos (g2 - 1 + 1074) ltac:(lia)). nia.
    + assert (Hz1 : z1 <= 2 ^ (g1 - f1)).
      { destruct Hn1 as ([Hlow _] & _).
        assert (E : 2 ^ (g1 + scale) = 2 ^ (g1 - f1) * 2 ^ (f1 + scale)).
        { rewrite <- pow2_split by lia. f_equal. lia. }
        rewrite E in Hhi1.
        pose proof (pow2_pos (g1 - f1) ltac:(lia)).
        nia. }
      eapply Z.le_trans.
      * apply Z.mul_le_mono_nonneg_r; [lia | exact Hz1].
      * rewrite <- pow2_split by lia. apply pow2_le. lia.
Qed.

Lemma iter_pos_nat {A : Type} (f : A -> A) (p : positive) (x : A) :
  SpecFloat.iter_pos f p x = Nat.iter (Pos.to_nat p) f x.
Proof.
  revert x. induction p as [p IH | p IH |]; intros x; cbn [SpecFloat.iter_pos].
  - rewrite !IH, Pos2Nat.inj_xI.
    replace (Datatypes.S (2 * Pos.to_nat p))%nat
      with (Pos.to_nat p + (Pos.to_nat p + 1))%nat by lia.
    rewrite !Nat.iter_add. reflexivity.
  - rewrite !IH, Pos2Nat.inj_xO.
    replace (2 * Pos.to_nat p)%nat with (Pos.to_nat p + Pos.to_nat p)%nat by lia.
    rewrite Nat.iter_add. reflexivity.
  - reflexivity.
Qed.

Lemma shr_1_nonneg (m : Z) (r s : bool) :
  0 <= m ->
  shr_1 (Build_shr_record m r s) = Build_shr_record (Z.div2 m) (Z.odd m) (r || s).
Proof.
  intros Hm. destruct m as [| [p | p |] | p]; try lia; reflexivity.
Qed.

Lemma b2z_odd (q : Z) : Z.b2z (Z.odd q) = q mod 2.
Proof. rewrite Zmod_odd. destruct (Z.odd q); reflexivity. Qed.

Lemma shr_1_shifted (m : Z) (k : nat) (x : shr_record) :
  shifted m k x -> shifted m (Datatypes.S k) (shr_1 x).
Proof.
  destruct x as [q r s]. intros (low & Hlow & Hq & Hm & Hs).
  cbn [shr_m shr_r shr_s] in *.
  rewrite shr_1_nonneg by exact Hq.
  unfold shifted. rewrite Nat2Z.inj_succ, Z.pow_succ_r by lia.
  set (P := 2 ^ Z.of_nat k) in *.
  assert (HP : 0 < P) by (apply pow2_pos; lia).
  exists (Z.b2z r * P + low). cbn [shr_m shr_r shr_s].
  rewrite Z.div2_div, b2z_odd.
  pose proof (Z.div_mod q 2 ltac:(lia)) as Hd.
  pose proof (Z.mod_pos_bound q 2 ltac:(lia)) as Hb.
  assert (Hr : 0 <= Z.b2z r <= 1) by (destruct r; cbn [Z.b2z]; lia).
  split; [nia |].
  split; [apply Z.div_pos; lia |].
  split; [nia |].
  rewrite Hs. destruct r; cbn [Z.b2z orb].
  - destruct (Z.eqb_spec (1 * P + low) 0); [lia | reflexivity].
  - replace (0 * P + low) with low by lia. reflexivity.
Qed.

Lemma shifted_iter (m : Z) (k : nat) :
  0 <= m ->
  shifted m k (Nat.iter (Datatypes.S k) shr_1 (Build_shr_record m false false)).
Proof.
  intros Hm. induction k as [| k IH].
  - cbn [Nat.iter nat_rect]. rewrite shr_1_nonneg by exact Hm.
    exists 0. cbn [shr_m shr_r shr_s Z.of_nat].
    rewrite Z.div2_div, b2z_odd.
    pose proof (Z.div_mod m 2 ltac:(lia)) as Hd.
    pose proof (Z.mod_pos_bound m 2 ltac:(lia)) as Hb.
    change (2 ^ 0) with 1.
    split; [lia |].
    split; [apply Z.div_pos; lia |].
    split; [lia | reflexivity].
  - change (Nat.iter (Datatypes.S (Datatypes.S k)) shr_1 (Build_shr_record m false false))
      with (shr_1 (Nat.iter (Datatypes.S k) shr_1 (Build_shr_record m false false))).
    apply shr_1_shifted. exact IH.
Qed.

Lemma shifted_nearest (m : Z) (k : nat) (x : shr_record) :
  shifted m k x ->
  let z := round_nearest_even (shr_m x) (loc_of_shr_record x) in
  nearest_even m (2 * 2 ^ Z.of_nat k) z /\ 0 <= z.
Proof.
  intros (low & Hlow & Hq & Hm & Hs).
  destruct x as [q r s]. cbn [shr_m shr_r shr_s] in *.
  set (P := 2 ^ Z.of_nat k) in *.
  assert (HP : 0 < P) by (apply pow2_pos; lia).
  assert (Hlow0 : s = false -> low = 0).
  { intros ->. symmetry in Hs. apply negb_false_iff in Hs.
    apply Z.eqb_eq in Hs. exact Hs. }
  assert (Hlow1 : s = true -> 0 < low).
  { intros ->. symmetry in Hs. apply negb_true_iff in Hs.
    apply Z.eqb_neq in Hs. lia. }
  clear Hs. unfold nearest_even.
  destruct r, s; cbn [loc_of_shr_record round_nearest_even Z.b2z] in *.
  - specialize (Hlow1 eq_refl).
    split; [split; [nia | split; intros; nia] | lia].
  - specialize (Hlow0 eq_refl). subst low.
    destruct (Z.even q) eqn:Eq.
    + split; [split; [nia | split; intros; [exact Eq | nia]] | lia].
    + split; [split; [nia | split; intros; rewrite Z.even_add, Eq; reflexivity] | lia].
  - specialize (Hlow1 eq_refl).
    split; [split; [nia | split; intros; nia] | lia].
  - specialize (Hlow0 eq_refl). subst low.
    split; [split; [nia | split; intros; nia] | lia].
Qed.

Lemma shr_exact_positive (m : Z) (e : Z) (p : positive) :
  0 <= m ->
  exists x, shr (Build_shr_record m false false) e (Z.pos p) = (x, e + Z.pos p) /\
    let z := round_nearest_even (shr_m x) (loc_of_shr_record x) in
    nearest_even m (2 ^ Z.pos p) z /\ 0 <= z.
Proof.
  intros Hm. cbn [shr]. rewrite iter_pos_nat.
  destruct (Pos2Nat.is_succ p) as [k Hk]. rewrite Hk.
  eexists. split; [reflexivity |].
  replace (2 ^ Z.pos p) with (2 * 2 ^ Z.of_nat k).
  - apply shifted_nearest. apply shifted_iter. exact Hm.
  - rewrite <- Z.pow_succ_r by lia. f_equal. lia.
Qed.

Lemma shr_nonpos (x : shr_record) (e n : Z) : n <= 0 -> shr x e n = (x, e).
Proof. destruct n; [reflexivity | lia | reflexivity]. Qed.

Lemma fexp_64 (x : Z) : fexp prec emax x = Z.max (x - 53) (-1074).
Proof. reflexivity. Qed.

Lemma nearest_even_scale (V U z c : Z) :
  0 < c -> nearest_even V U z -> nearest_even (V * c) (U * c) z.
Proof.
  intros Hc (Hb & Hup & Hlow). unfold nearest_even.
  split; [nia |]. split; intros E; [apply Hup | apply Hlow]; nia.
Qed.

Lemma nearest_even_exact (m U : Z) : 0 < U -> nearest_even (m * U) U m.
Proof.
  intros HU. unfold nearest_even.
  split; [nia |]. split; intros E; nia.
Qed.

Lemma bounded_intro (m : positive) (e : Z) :
  Z.max (Z.pos (digits2_pos m) + e - 53) (-1074) = e -> e <= 971 ->
  valid_binary (S754_finite false m e) = true.
Proof.
  intros Hc He. cbn [valid_binary]. unfold bounded, canonical_mantissa.
  rewrite fexp_64. apply andb_true_intro. split.
  - apply Z.eqb_eq. exact Hc.
  - apply Z.leb_le. change (emax - prec) with 971. exact He.
Qed.

Lemma pow2_lt_inv (a b : Z) : 0 <= a -> 2 ^ a < 2 ^ b -> a < b.
Proof.
  intros Ha H. destruct (Z_lt_le_dec a b) as [? | Hle]; [assumption |].
  destruct (Z_lt_le_dec b 0) as [Hneg | Hpos].
  - rewrite (Z.pow_neg_r 2 b Hneg) in H. pose proof (pow2_pos a Ha). lia.
  - pose proof (pow2_le b a ltac:(lia)). lia.
Qed.

Lemma round_aux_rounds_to (m : positive) (e : Z) :
  let d := Z.pos (digits2_pos m) in
  let f := Z.max (d + e - 53) (-1074) in
  - scale <= e -> e <= f -> d + e <= 1023 ->
  let x := binary_round_aux prec emax false (Z.pos m) e loc_Exact in
  valid_binary x = true /\ nonneg x /\
  rounds_to (Z.pos m * 2 ^ (e + scale)) (key x).
Proof.
  cbv zeta.
  pose proof (digits2_bounds m) as [Hmlo Hmhi].
  remember (Z.pos (digits2_pos m)) as d eqn:Ed.
  remember (Z.max (d + e - 53) (-1074)) as f eqn:Ef.
  intros HeS Hef Hmag.
  assert (HS : scale = 2200) by reflexivity.
  assert (Hd : 1 <= d) by lia.
  assert (Hc : 0 < 2 ^ (e + scale)) by (apply pow2_pos; lia).
  assert (Hmag_lo : 2 ^ (d + e - 1 + scale) <= Z.pos m * 2 ^ (e + scale)).
  { replace (d + e - 1 + scale) with ((d - 1) + (e + scale)) by lia.
    rewrite (pow2_split (d - 1) (e + scale)) by lia. apply Z.mul_le_mono_nonneg_r; lia. }
  assert (Hmag_hi : Z.pos m * 2 ^ (e + scale) < 2 ^ (d + e + scale)).
  { replace (d + e + scale) with (d + (e + scale)) by lia.
    rewrite (pow2_split d (e + scale)) by lia. apply Z.mul_lt_mono_pos_r; lia. }
  assert (Hspec : forall z k, nearest_even (Z.pos m * 2 ^ (e + scale)) (2 ^ (f + scale)) z ->
                    k = z * 2 ^ (f + 1074) ->
                    rounds_to (Z.pos m * 2 ^ (e + scale)) k).
  { intros z k Hz Hk. exists (d + e), f, z.
    split; [split; assumption |]. split; [lia |]. split; [exact Ef |].
    split; assumption. }
  unfold binary_round_aux, shr_fexp.
  cbn [shr_record_of_loc Zdigits2]. rewrite fexp_64, <- Ed, <- Ef.
  destruct (Z.eq_dec e f) as [Eef | Nef].
  - (* the mantissa already fits *)
    rewrite shr_nonpos by lia.
    cbn [round_nearest_even shr_m loc_of_shr_record Zdigits2].
    rewrite fexp_64, <- Ed, <- Ef. rewrite shr_nonpos by lia.
    cbn [shr_m].
    assert (Hle : (e <=? emax - prec) = true).
    { apply Z.leb_le. change (emax - prec) with 971. lia. }
    rewrite Hle.
    split; [apply bounded_intro; [rewrite <- Ed |]; lia |].
    split; [exact I |].
    apply (Hspec (Z.pos m)).
    + rewrite <- Eef. apply nearest_even_exact. exact Hc.
    + cbn [key]. rewrite Eef. reflexivity.
  - (* [f - e] low bits are rounded away *)
    destruct (f - e) as [| p | p] eqn:En; try lia.
    destruct (shr_exact_positive (Z.pos m) e p ltac:(lia)) as (x & Hx & Hz & Hz0).
    rewrite Hx. cbv zeta in Hz, Hz0.
    set (z := round_nearest_even (shr_m x) (loc_of_shr_record x)) in *.
    replace (e + Z.pos p) with f by lia.
    assert (Hnear : nearest_even (Z.pos m * 2 ^ (e + scale)) (2 ^ (f + scale)) z).
    { replace (f + scale) with (Z.pos p + (e + scale)) by lia.
      rewrite (pow2_split (Z.pos p) (e + scale)) by lia. apply nearest_even_scale; assumption. }
    assert (Hz53 : z <= 2 ^ 53).
    { destruct Hz as ([Hlow _] & _).
      assert (Hm' : Z.pos m < 2 ^ 53 * 2 ^ Z.pos p).
      { rewrite <- (pow2_split 53 (Z.pos p)) by lia.
        eapply Z.lt_le_trans; [exact Hmhi |]. apply pow2_le. lia. }
      pose proof (pow2_pos (Z.pos p) ltac:(lia)) as Hp.
      assert (2 * z - 1 < 2 * 2 ^ 53) by nia. lia. }
    destruct z as [| pz | pz] eqn:Ez; try lia.
    + (* underflow to zero *)
      cbn [Zdigits2]. rewrite fexp_64, shr_nonpos by lia.
      cbn [shr_m]. split; [reflexivity |]. split; [exact I |].
      apply (Hspec 0); [exact Hnear | reflexivity].
    + cbn [Zdigits2]. rewrite fexp_64.
      pose proof (digits2_bounds pz) as [Hzlo Hzhi].
      set (dz := Z.pos (digits2_pos pz)) in *.
      destruct (Z_le_gt_dec dz 53) as [Hdz | Hdz].
      * rewrite shr_nonpos by lia. cbn [shr_m].
        assert (Hle : (f <=? emax - prec) = true).
        { apply Z.leb_le. change (emax - prec) with 971. lia. }
        rewrite Hle.
        assert (Hcanon : Z.max (dz + f - 53) (-1074) = f).
        { destruct (Z.eq_dec f (-1074)) as [Efm | Nfm]; [lia |].
          assert (H52 : 2 ^ 52 <= Z.pos pz).
          { destruct Hz as ([_ Hup] & _).
            pose proof (pow2_pos (Z.pos p) ltac:(lia)) as Hp.
            assert (Em : 2 ^ (d - 1) = 2 ^ 52 * 2 ^ Z.pos p).
            { rewrite <- (pow2_split 52 (Z.pos p)) by lia. f_equal. lia. }
            rewrite Em in Hmlo.
            assert (2 * 2 ^ 52 <= 2 * Z.pos pz + 1) by nia.
            change (2 ^ 52) with 4503599627370496 in *. lia. }
          assert (Hlt : 2 ^ 52 < 2 ^ dz) by lia.
          apply pow2_lt_inv in Hlt; lia. }
        split; [apply bounded_intro; [exact Hcanon | lia] |].
        split; [exact I |].
        apply (Hspec (Z.pos pz)); [exact Hnear | reflexivity].
      * (* the rounding carried into a new bit *)
        assert (Hpz : Z.pos pz = 2 ^ 53).
        { pose proof (pow2_le 53 (dz - 1) ltac:(lia)). lia. }
        assert (Hdz' : dz = 54).
        { destruct (Z_le_gt_dec dz 54) as [? | Hbig]; [lia |].
          pose proof (pow2_le 54 (dz - 1) ltac:(lia)) as H54.
          change (2 ^ 54) with (2 * 2 ^ 53) in H54.
          pose proof (pow2_pos 53 ltac:(lia)). lia. }
        rewrite Hdz'.
        replace (Z.max (54 + f - 53) (-1074) - f) with 1 by lia.
        assert (Epz : pz = 9007199254740992%positive).
        { change (2 ^ 53) with (Z.pos 9007199254740992) in Hpz. congruence. }
        rewrite Epz. cbn [shr SpecFloat.iter_pos shr_1 shr_m].
        assert (Hle : (f + 1 <=? emax - prec) = true).
        { apply Z.leb_le. change (emax - prec) with 971. lia. }
        rewrite Hle.
        split; [apply bounded_intro;
                [change (Z.pos (digits2_pos 4503599627370496)) with 53 |]; lia |].
        split; [exact I |].
        apply (Hspec (Z.pos pz)); [exact Hnear |].
        cbn [key]. rewrite Epz.
        replace (f + 1 + 1074) with (1 + (f + 1074)) by lia.
        rewrite (pow2_split 1 (f + 1074)) by lia. change (2 ^ 1) with 2. lia.
Qed.

Lemma digits2_unique (p : positive) (a : Z) :
  2 ^ (a - 1) <= Z.pos p < 2 ^ a -> Z.pos (digits2_pos p) = a.
Proof.
  intros [Hlo Hhi]. pose proof (digits2_bounds p) as [Dlo Dhi].
  set (d := Z.pos (digits2_pos p)) in *.
  assert (Hd : 1 <= d) by (unfold d; lia).
  assert (Ha : 1 <= a).
  { destruct (Z_le_gt_dec 1 a) as [? | Hneg]; [assumption |].
    assert (E : 2 ^ a <= 1).
    { destruct (Z.eq_dec a 0) as [-> | Hn];
        [change (2 ^ 0) with 1; lia | rewrite Z.pow_neg_r by lia; lia]. }
    lia. }
  destruct (Z.lt_trichotomy d a) as [Hlt | [Heq | Hgt]]; [| exact Heq |].
  - pose proof (pow2_le d (a - 1) ltac:(lia)). lia.
  - pose proof (pow2_le a (d - 1) ltac:(lia)). lia.
Qed.

Lemma shl_align_value (m : positive) (e e' : Z) :
  exists m' e'', shl_align m e e' = (m', e'') /\
    e'' = Z.min e e' /\ Z.pos m' = Z.pos m * 2 ^ (e - e'').
Proof.
  unfold shl_align. destruct (e' - e) as [| p | p] eqn:E.
  - exists m, e. split; [reflexivity |]. split; [lia |].
    rewrite Z.sub_diag. cbn. lia.
  - exists m, e. split; [reflexivity |]. split; [lia |].
    rewrite Z.sub_diag. cbn. lia.
  - exists (Pos.iter xO m p), e'. split; [reflexivity |]. split; [lia |].
    replace (e - e') with (Z.pos p) by lia.
    change (Pos.iter xO m p) with (shift_pos p m).
    rewrite shift_pos_correct. change (Z.pow_pos 2 p) with (2 ^ Z.pos p). lia.
Qed.

Lemma digits_shift (m m' : positive) (n : Z) :
  0 <= n -> Z.pos m' = Z.pos m * 2 ^ n ->
  Z.pos (digits2_pos m') = Z.pos (digits2_pos m) + n.
Proof.
  intros Hn E. apply digits2_unique. rewrite E.
  pose proof (digits2_bounds m) as [Dlo Dhi].
  set (d := Z.pos (digits2_pos m)) in *.
  assert (Hd : 1 <= d) by (unfold d; lia).
  pose proof (pow2_pos n Hn) as Hp.
  replace (d + n - 1) with ((d - 1) + n) by lia.
  rewrite (pow2_split (d - 1) n), (pow2_split d n) by lia.
  split; [apply Z.mul_le_mono_nonneg_r; lia | apply Z.mul_lt_mono_pos_r; lia].
Qed.

(** Rounding a positive [m * 2^e], as [binary_round] does after aligning. *)
Lemma binary_round_rounds_to (m : positive) (e : Z) :
  - scale <= e -> Z.pos (digits2_pos m) + e <= 1023 ->
  let x := binary_round prec emax false m e in
  valid_binary x = true /\ nonneg x /\
  rounds_to (Z.pos m * 2 ^ (e + scale)) (key x).
Proof.
  intros HeS Hmag. cbv zeta. unfold binary_round.
  assert (HS : scale = 2200) by reflexivity.
  rewrite fexp_64.
  remember (Z.pos (digits2_pos m)) as d eqn:Ed.
  remember (Z.max (d + e - 53) (-1074)) as f eqn:Ef.
  destruct (shl_align_value m e f) as (mz & ez & -> & Hez & Hmz).
  assert (Hdz : Z.pos (digits2_pos mz) = d + (e - ez)).
  { rewrite Ed. apply digits_shift; [lia | exact Hmz]. }
  assert (Hval : Z.pos mz * 2 ^ (ez + scale) = Z.pos m * 2 ^ (e + scale)).
  { rewrite Hmz. replace (e + scale) with ((e - ez) + (ez + scale)) by lia.
    rewrite (pow2_split (e - ez) (ez + scale)) by lia. lia. }
  rewrite <- Hval.
  apply round_aux_rounds_to; try rewrite Hdz; lia.
Qed.

Lemma rounds_to_nonneg (V k : Z) : rounds_to V k -> 0 <= k.
Proof.
  intros (g & f & z & [Hlo Hhi] & Hg & Hf & Hn & ->).
  assert (HS : scale = 2200) by reflexivity.
  pose proof (pow2_pos (g - 1 + scale) Hg) as HV.
  pose proof (pow2_pos (f + scale) ltac:(lia)) as HU.
  pose proof (pow2_pos (f + 1074) ltac:(lia)) as HP.
  destruct Hn as ([_ Hup] & _).
  assert (0 <= z) by nia. nia.
Qed.

Lemma rounded_monotone (V1 V2 k1 k2 : Z) :
  rounded V1 k1 -> rounded V2 k2 -> V1 <= V2 -> k1 <= k2.
Proof.
  intros [[-> ->] | [H1 R1]] [[-> ->] | [H2 R2]] HV; try lia.
  - apply rounds_to_nonneg in R2. exact R2.
  - eapply rounds_to_monotone; eassumption.
Qed.

(** A valid positive finite float is its own rounding. *)
Lemma rounds_to_self (m : positive) (e : Z) :
  bounded prec emax m e = true ->
  rounds_to (Z.pos m * 2 ^ (e + 1074) * 2 ^ 1126) (Z.pos m * 2 ^ (e + 1074)).
Proof.
  intros Hb. pose proof (bounded_inv m e Hb) as (He & Hd & Hn).
  assert (HS : scale = 2200) by reflexivity.
  pose proof (digits2_bounds m) as [Dlo Dhi].
  remember (Z.pos (digits2_pos m)) as d eqn:Ed.
  assert (Hd1 : 1 <= d) by lia.
  assert (EV : Z.pos m * 2 ^ (e + 1074) * 2 ^ 1126 = Z.pos m * 2 ^ (e + scale)).
  { replace (e + scale) with ((e + 1074) + 1126) by lia.
    rewrite (pow2_split (e + 1074) 1126) by lia. lia. }
  rewrite EV.
  pose proof (pow2_pos (e + scale) ltac:(lia)) as Hc.
  exists (d + e), e, (Z.pos m).
  split; [split |].
  - replace (d + e - 1 + scale) with ((d - 1) + (e + scale)) by lia.
    rewrite (pow2_split (d - 1) (e + scale)) by lia.
    apply Z.mul_le_mono_nonneg_r; lia.
  - replace (d + e + scale) with (d + (e + scale)) by lia.
    rewrite (pow2_split d (e + scale)) by lia.
    apply Z.mul_lt_mono_pos_r; lia.
  - split; [lia |]. split; [lia |].
    split; [apply nearest_even_exact; exact Hc | reflexivity].
Qed.

Lemma le_mul_pos_l (a b : Z) : 0 < a -> 0 <= b -> b <= a * b.
Proof. intros Ha Hb. nia. Qed.

Lemma SFmul_rounded (x y : spec_float) :
  valid_binary x = true -> valid_binary y = true -> nonneg x -> nonneg y ->
  key x * key y < product_bound ->
  nonneg (SFmul prec emax x y) /\
  rounded (key x * key y * 2 ^ 52) (key (SFmul prec emax x y)).
Proof.
  assert (HS : scale = 2200) by reflexivity.
  destruct x as [sx | sx | | [|] mx ex], y as [sy | sy | | [|] my ey];
    cbn [nonneg]; try contradiction; intros Vx Vy _ _ Hb.
  - split; [exact I | left; split; reflexivity].
  - split; [exact I | left; split; reflexivity].
  - split; [exact I | left; split; [cbn [key]; lia | reflexivity]].
  - cbn [valid_binary] in Vx, Vy. cbn [SFmul xorb].
    pose proof (bounded_inv mx ex Vx) as (Hex & Hdx & Hnx).
    pose proof (bounded_inv my ey Vy) as (Hey & Hdy & Hny).
    pose proof (digits2_bounds mx) as [Xlo Xhi].
    pose proof (digits2_bounds my) as [Ylo Yhi].
    pose proof (digits2_bounds (mx * my)) as [Plo Phi].
    remember (Z.pos (digits2_pos mx)) as dx eqn:Edx.
    remember (Z.pos (digits2_pos my)) as dy eqn:Edy.
    remember (Z.pos (digits2_pos (mx * my))) as d eqn:Ed.
    cbn [key] in Hb |- *.
    assert (Hpx : 0 < 2 ^ (ex + 1074)) by (apply pow2_pos; lia).
    assert (Hpy : 0 < 2 ^ (ey + 1074)) by (apply pow2_pos; lia).
    assert (EV : Z.pos mx * 2 ^ (ex + 1074) * (Z.pos my * 2 ^ (ey + 1074)) * 2 ^ 52
                 = Z.pos (mx * my) * 2 ^ (ex + ey + scale)).
    { replace (ex + ey + scale) with ((ex + 1074) + ((ey + 1074) + 52)) by lia.
      rewrite (pow2_split (ex + 1074) (ey + 1074 + 52)) by lia.
      rewrite (pow2_split (ey + 1074) 52) by lia.
      rewrite Pos2Z.inj_mul. ring. }
    assert (Hd1 : 1 <= d) by lia.
    assert (Hmag : d + (ex + ey) <= 1023).
    { assert (Hlt : 2 ^ ((d - 1) + ((ex + 1074) + (ey + 1074))) < 2 ^ 3171).
      change (2 ^ 3171) with product_bound.
      { rewrite (pow2_split (d - 1) (ex + 1074 + (ey + 1074))) by lia.
        rewrite (pow2_split (ex + 1074) (ey + 1074)) by lia.
        eapply Z.le_lt_trans; [| exact Hb].
        rewrite Pos2Z.inj_mul in Plo.
        replace (Z.pos mx * 2 ^ (ex + 1074) * (Z.pos my * 2 ^ (ey + 1074)))
          with (Z.pos mx * Z.pos my * (2 ^ (ex + 1074) * 2 ^ (ey + 1074))) by ring.
        apply Z.mul_le_mono_nonneg_r; [| exact Plo].
        apply Z.mul_nonneg_nonneg; lia. }
      apply pow2_lt_inv in Hlt; lia. }
    assert (Hfit : ex + ey <= Z.max (d + (ex + ey) - 53) (-1074)).
    { destruct (Z.eq_dec ex (-1074)) as [Ex | Nx];
        destruct (Z.eq_dec ey (-1074)) as [Ey | Ny]; try lia.
      - (* y is normal: its mantissa has 53 bits *)
        assert (Hdy' : dy = 53) by lia. rewrite Hdy' in Ylo.
        assert (H52 : 2 ^ 52 < 2 ^ d).
        { eapply Z.le_lt_trans; [| exact Phi]. rewrite Pos2Z.inj_mul.
          change (53 - 1) with 52 in Ylo.
          eapply Z.le_trans; [exact Ylo |]. apply le_mul_pos_l; lia. }
        apply pow2_lt_inv in H52; lia.
      - assert (Hdx' : dx = 53) by lia. rewrite Hdx' in Xlo.
        assert (H52 : 2 ^ 52 < 2 ^ d).
        { eapply Z.le_lt_trans; [| exact Phi]. rewrite Pos2Z.inj_mul.
          change (53 - 1) with 52 in Xlo.
          eapply Z.le_trans; [exact Xlo |]. rewrite Z.mul_comm.
          apply le_mul_pos_l; lia. }
        apply pow2_lt_inv in H52; lia.
      - assert (Hdx' : dx = 53) by lia. rewrite Hdx' in Xlo.
        assert (H52 : 2 ^ 52 < 2 ^ d).
        { eapply Z.le_lt_trans; [| exact Phi]. rewrite Pos2Z.inj_mul.
          change (53 - 1) with 52 in Xlo.
          eapply Z.le_trans; [exact Xlo |]. rewrite Z.mul_comm.
          apply le_mul_pos_l; lia. }
        apply pow2_lt_inv in H52; lia. }
    destruct (round_aux_rounds_to (mx * my) (ex + ey)) as (_ & Hnn & Hr);
      try rewrite <- Ed; try lia.
    split; [exact Hnn |]. right. rewrite EV. split; [| exact Hr].
    apply Z.mul_pos_pos; [lia | apply pow2_pos; lia].
Qed.

(** Two valid positive floats brought to the exponent [Z.min ex ey]. *)
Lemma aligned_keys (mx my : positive) (ex ey : Z) :
  bounded prec emax mx ex = true -> bounded prec emax my ey = true ->
  exists ax ay,
    fst (shl_align mx ex (Z.min ex ey)) = ax /\
    fst (shl_align my ey (Z.min ex ey)) = ay /\
    -1074 <= Z.min ex ey /\
    Z.pos ax * 2 ^ (Z.min ex ey + 1074) = Z.pos mx * 2 ^ (ex + 1074) /\
    Z.pos ay * 2 ^ (Z.min ex ey + 1074) = Z.pos my * 2 ^ (ey + 1074).
Proof.
  intros Vx Vy.
  pose proof (bounded_inv mx ex Vx) as (Hex & _).
  pose proof (bounded_inv my ey Vy) as (Hey & _).
  remember (Z.min ex ey) as ez eqn:Ez.
  destruct (shl_align_value mx ex ez) as (ax & ex' & Eax & Hex' & Hax).
  destruct (shl_align_value my ey ez) as (ay & ey' & Eay & Hey' & Hay).
  exists ax, ay. rewrite Eax, Eay. cbn [fst].
  assert (Ex' : ex' = ez) by lia.
  assert (Ey' : ey' = ez) by lia.
  subst ex' ey'. rewrite Ex' in Hax. rewrite Ey' in Hay.
  split; [reflexivity |]. split; [reflexivity |].
  split; [lia |].
  split.
  - rewrite Hax. replace (ex + 1074) with ((ex - ez) + (ez + 1074)) by lia.
    rewrite (pow2_split (ex - ez) (ez + 1074)) by lia. ring.
  - rewrite Hay. replace (ey + 1074) with ((ey - ez) + (ez + 1074)) by lia.
    rewrite (pow2_split (ey - ez) (ez + 1074)) by lia. ring.
Qed.

(** Rounding the positive [m * 2^e] whose key is [K]. *)
Lemma binary_round_key (m : positive) (e K : Z) :
  -1074 <= e -> Z.pos m * 2 ^ (e + 1074) = K -> K < value_bound ->
  nonneg (binary_round prec emax false m e) /\
  rounded (K * 2 ^ 1126) (key (binary_round prec emax false m e)).
Proof.
  intros He EK Hb.
  assert (HS : scale = 2200) by reflexivity.
  pose proof (digits2_bounds m) as [Dlo Dhi].
  remember (Z.pos (digits2_pos m)) as d eqn:Ed.
  assert (Hd1 : 1 <= d) by lia.
  pose proof (pow2_pos (e + 1074) ltac:(lia)) as Hp.
  assert (Hmag : d + e <= 1023).
  { assert (Hlt : 2 ^ ((d - 1) + (e + 1074)) < 2 ^ 2097).
    change (2 ^ 2097) with value_bound.
    { rewrite (pow2_split (d - 1) (e + 1074)) by lia.
      eapply Z.le_lt_trans; [| exact Hb]. rewrite <- EK.
      apply Z.mul_le_mono_nonneg_r; lia. }
    apply pow2_lt_inv in Hlt; lia. }
  destruct (binary_round_rounds_to m e) as (_ & Hnn & Hr);
    try rewrite <- Ed; try lia.
  split; [exact Hnn |]. right.
  assert (EV : K * 2 ^ 1126 = Z.pos m * 2 ^ (e + scale)).
  { rewrite <- EK. replace (e + scale) with ((e + 1074) + 1126) by lia.
    rewrite (pow2_split (e + 1074) 1126) by lia. ring. }
  rewrite EV. split; [| exact Hr].
  apply Z.mul_pos_pos; [lia | apply pow2_pos; lia].
Qed.

Lemma key_finite (m : positive) (e : Z) :
  key (S754_finite false m e) = Z.pos m * 2 ^ (e + 1074).
Proof. reflexivity. Qed.

Lemma finite_key_pos (m : positive) (e : Z) :
  bounded prec emax m e = true -> 0 < Z.pos m * 2 ^ (e + 1074).
Proof.
  intros Hb. pose proof (bounded_inv m e Hb) as (He & _).
  apply Z.mul_pos_pos; [lia | apply pow2_pos; lia].
Qed.

Lemma rounded_self (m : positive) (e : Z) :
  bounded prec emax m e = true ->
  rounded (Z.pos m * 2 ^ (e + 1074) * 2 ^ 1126) (Z.pos m * 2 ^ (e + 1074)).
Proof.
  intros Hb. right. split; [| apply rounds_to_self; exact Hb].
  apply Z.mul_pos_pos; [apply finite_key_pos; exact Hb | apply pow2_pos; lia].
Qed.

Lemma SFadd_rounded (x y : spec_float) :
  valid_binary x = true -> valid_binary y = true -> nonneg x -> nonneg y ->
  key x + key y < value_bound ->
  nonneg (SFadd prec emax x y) /\
  rounded ((key x + key y) * 2 ^ 1126) (key (SFadd prec emax x y)).
Proof.
  destruct x as [sx | sx | | [|] mx ex], y as [sy | sy | | [|] my ey];
    cbn [nonneg]; try contradiction; intros Vx Vy _ _ Hb.
  - cbn [SFadd]. destruct sx, sy; split; try exact I; left; split; reflexivity.
  - cbn [SFadd nonneg key valid_binary] in *. split; [exact I |].
    rewrite Z.add_0_l. apply rounded_self. exact Vy.
  - cbn [SFadd nonneg key valid_binary] in *. split; [exact I |].
    rewrite Z.add_0_r. apply rounded_self. exact Vx.
  - cbn [valid_binary] in Vx, Vy. cbn [SFadd cond_Zopp].
    destruct (aligned_keys mx my ex ey Vx Vy) as (ax & ay & -> & -> & Hez & Hax & Hay).
    rewrite !key_finite in *.
    change (Z.pos ax + Z.pos ay) with (Z.pos (ax + ay)). cbn [binary_normalize].
    apply binary_round_key; [exact Hez | | exact Hb].
    rewrite Pos2Z.inj_add, Z.mul_add_distr_r, Hax, Hay. reflexivity.
Qed.

Lemma SFsub_rounded (x y : spec_float) :
  valid_binary x = true -> valid_binary y = true -> nonneg x -> nonneg y ->
  key y <= key x -> key x < value_bound ->
  nonneg (SFsub prec emax x y) /\
  rounded ((key x - key y) * 2 ^ 1126) (key (SFsub prec emax x y)).
Proof.
  destruct x as [sx | sx | | [|] mx ex], y as [sy | sy | | [|] my ey];
    cbn [nonneg]; try contradiction; intros Vx Vy _ _ Hle Hb.
  - cbn [SFsub]. destruct sx, sy; split; try exact I; left; split; reflexivity.
  - cbn [valid_binary] in Vy. rewrite key_finite in Hle.
    pose proof (finite_key_pos my ey Vy). cbn [key] in Hle. lia.
  - cbn [SFsub nonneg key valid_binary] in *. split; [exact I |].
    rewrite Z.sub_0_r. apply rounded_self. exact Vx.
  - cbn [valid_binary] in Vx, Vy. cbn [SFsub cond_Zopp].
    destruct (aligned_keys mx my ex ey Vx Vy) as (ax & ay & -> & -> & Hez & Hax & Hay).
    rewrite !key_finite in *.
    pose proof (pow2_pos (Z.min ex ey + 1074) ltac:(lia)) as Hp.
    pose proof (finite_key_pos my ey Vy) as Hy0.
    destruct (Z.pos ax - Z.pos ay) as [| dm | dm] eqn:Ed; cbn [binary_normalize].
    + split; [exact I |]. left. split; [| reflexivity].
      assert (E : Z.pos ax = Z.pos ay) by lia.
      rewrite <- Hax, <- Hay, E, Z.sub_diag. reflexivity.
    + apply binary_round_key; [exact Hez | | lia].
      rewrite <- Ed, Z.mul_sub_distr_r, Hax, Hay. reflexivity.
    + exfalso. assert (Hlt : Z.pos ax < Z.pos ay) by lia.
      apply (Z.mul_lt_mono_pos_r _ _ _ Hp) in Hlt. lia.
Qed.

End Binary64Rounding.

(** ** Monotonicity within a bucket, in binary64 arithmetic *)

Section Binary64Monotone.

Import B64.

(** A float that is a zero or positive and finite. *)
Lemma nn_key (x : float) : nn x -> is_nan x = false /\ 0 <= fkey x.
Proof.
  unfold nn, fkey. rewrite is_nan_spec.
  pose proof (Prim2SF_valid x) as Hv.
  destruct (Prim2SF x) as [s | s | | [|] m e]; cbn [nonneg]; try contradiction;
    intros _; split; try reflexivity; cbn [key]; try lia.
  all: cbn [valid_binary] in Hv; pose proof (finite_key_pos m e Hv); lia.
Qed.

Lemma key_nn (x : float) :
  is_nan x = false -> 0 <= fkey x < huge -> nn x.
Proof.
  unfold nn, fkey. rewrite is_nan_spec.
  pose proof (Prim2SF_valid x) as Hv.
  destruct (Prim2SF x) as [s | s | | [|] m e]; cbn [nonneg is_nan_sf key];
    try discriminate; intros _ Hk; try exact I.
  - destruct s; lia.
  - cbn [valid_binary] in Hv. pose proof (finite_key_pos m e Hv). lia.
Qed.

Lemma b64_sub_rounded (x c : float) :
  nn x -> nn c -> fkey c <= fkey x -> fkey x < value_bound ->
  nn (x - c) /\ rounded ((fkey x - fkey c) * 2 ^ 1126) (fkey (x - c)).
Proof.
  unfold nn, fkey. rewrite sub_spec. intros Hx Hc Hle Hb.
  apply SFsub_rounded; auto using Prim2SF_valid.
Qed.

Lemma b64_mul_rounded (k d : float) :
  nn k -> nn d -> fkey k * fkey d < product_bound ->
  nn (k * d) /\ rounded (fkey k * fkey d * 2 ^ 52) (fkey (k * d)).
Proof.
  unfold nn, fkey. rewrite mul_spec. intros Hk Hd Hb.
  apply SFmul_rounded; auto using Prim2SF_valid.
Qed.

Lemma b64_add_rounded (p i : float) :
  nn p -> nn i -> fkey p + fkey i < value_bound ->
  nn (p + i) /\ rounded ((fkey p + fkey i) * 2 ^ 1126) (fkey (p + i)).
Proof.
  unfold nn, fkey. rewrite add_spec. intros Hp Hi Hb.
  apply SFadd_rounded; auto using Prim2SF_valid.
Qed.

Lemma line_monotone (k lo i C C' : float) :
  nn k -> nn lo -> nn i -> nn C -> nn C' ->
  fkey lo <= fkey C -> fkey C <= fkey C' -> in_range k lo i C' ->
  in_range k lo i C /\
  nn (line k lo i C) /\ nn (line k lo i C') /\
  fkey (line k lo i C) <= fkey (line k lo i C').
Proof.
  intros Hk Hlo Hi HC HC' Hlow Hle (Hb1 & Hb2 & Hb3). unfold line, in_range.
  pose proof (nn_key k Hk) as [_ Hk0].
  destruct (b64_sub_rounded C lo HC Hlo Hlow ltac:(lia)) as [Hd Rd].
  destruct (b64_sub_rounded C' lo HC' Hlo ltac:(lia) Hb1) as [Hd' Rd'].
  assert (Ld : fkey (C - lo) <= fkey (C' - lo)).
  { eapply rounded_monotone; [exact Rd | exact Rd' |].
    apply Z.mul_le_mono_nonneg_r; [apply Z.pow_nonneg |]; lia. }
  pose proof (nn_key _ Hd) as [_ Hd0].
  assert (Hbm : fkey k * fkey (C - lo) < product_bound).
  { eapply Z.le_lt_trans; [| exact Hb2].
    apply Z.mul_le_mono_nonneg_l; assumption. }
  destruct (b64_mul_rounded k (C - lo) Hk Hd Hbm) as [Hp Rp].
  destruct (b64_mul_rounded k (C' - lo) Hk Hd' Hb2) as [Hp' Rp'].
  assert (Lp : fkey (k * (C - lo)) <= fkey (k * (C' - lo))).
  { eapply rounded_monotone; [exact Rp | exact Rp' |].
    apply Z.mul_le_mono_nonneg_r; [apply Z.pow_nonneg; lia |].
    apply Z.mul_le_mono_nonneg_l; assumption. }
  assert (Hba : fkey (k * (C - lo)) + fkey i < value_bound) by lia.
  destruct (b64_add_rounded _ i Hp Hi Hba) as [Ha Ra].
  destruct (b64_add_rounded _ i Hp' Hi Hb3) as [Ha' Ra'].
  split; [repeat split; (lia || assumption) |].
  split; [exact Ha |]. split; [exact Ha' |].
  eapply rounded_monotone; [exact Ra | exact Ra' |].
  apply Z.mul_le_mono_nonneg_r; [apply Z.pow_nonneg |]; lia.
Qed.

(** The exact value of a non-negative float, against its key. *)
Lemma exact_value_key (x : spec_float) :
  valid_binary x = true -> nonneg x ->
  exists q, exact_value x = Some q /\
    Qnum q * 2 ^ 1074 = key x * Z.pos (Qden q).
Proof.
  destruct x as [s | s | | [|] m e]; cbn [nonneg]; try contradiction;
    intros Hv _.
  - exists 0%Q. split; reflexivity.
  - cbn [valid_binary] in Hv. pose proof (bounded_inv m e Hv) as (He & _).
    cbn [exact_value key].
    destruct e as [| p | p].
    + eexists. split; [reflexivity |]. cbn [Qnum Qden]. 
      change (0 + 1074) with 1074. change (2 ^ 0) with 1. lia.
    + eexists. split; [reflexivity |]. cbn [Qnum Qden].
      rewrite (pow2_split (Z.pos p) 1074) by lia. lia.
    + eexists. split; [reflexivity |]. cbn [Qnum Qden].
      rewrite Pos2Z.inj_pow.
      assert (E : 2 ^ 1074 = 2 ^ (Z.neg p + 1074) * 2 ^ Z.pos p).
      { rewrite <- (pow2_split (Z.neg p + 1074) (Z.pos p)) by lia.
        f_equal. lia. }
      rewrite E. ring.
Qed.

Lemma round_monotone (a a' : float) :
  nn a -> nn a' -> fkey a <= fkey a' ->
  exists n n', B64.round a = Ret n /\ B64.round a' = Ret n' /\ n <= n'.
Proof.
  unfold nn, fkey. intros Ha Ha' Hle.
  destruct (exact_value_key _ (Prim2SF_valid a) Ha) as (q & Eq & Hq).
  destruct (exact_value_key _ (Prim2SF_valid a') Ha') as (q' & Eq' & Hq').
  exists (round_half_even q), (round_half_even q').
  rewrite (b64_round_exact a q Eq), (b64_round_exact a' q' Eq').
  split; [reflexivity |]. split; [reflexivity |].
  apply round_half_even_monotone. unfold Qle.
  pose proof (pow2_pos 1074 ltac:(lia)) as Hp.
  apply (Z.mul_le_mono_pos_r _ _ (2 ^ 1074) Hp).
  replace (Qnum q * QDen q' * 2 ^ 1074)
    with (Qnum q * 2 ^ 1074 * QDen q') by ring.
  replace (Qnum q' * QDen q * 2 ^ 1074)
    with (Qnum q' * 2 ^ 1074 * QDen q) by ring.
  rewrite Hq, Hq'.
  replace (key (Prim2SF a) * QDen q * QDen q')
    with (key (Prim2SF a) * (QDen q * QDen q')) by ring.
  replace (key (Prim2SF a') * QDen q' * QDen q)
    with (key (Prim2SF a') * (QDen q * QDen q')) by ring.
  apply Z.mul_le_mono_nonneg_r; [lia | exact Hle].
Qed.

Lemma leb_true_keys (x y : float) :
  (x <=? y)%float = true ->
  is_nan x = false /\ is_nan y = false /\ fkey x <= fkey y.
Proof.
  intros Hle.
  destruct (is_nan x) eqn:Hx.
  { destruct (nan_compare x y Hx) as (Hf & _). congruence. }
  destruct (is_nan y) eqn:Hy.
  { destruct (nan_compare y x Hy) as (_ & Hf & _). congruence. }
  rewrite (leb_key x y Hx Hy) in Hle. apply Z.leb_le in Hle. auto.
Qed.

Lemma in_bucket_keys (C lo hi : float) (il ih : Z) :
  in_bucket C (lo, hi, il, ih) = true ->
  is_nan C = false /\ is_nan lo = false /\ fkey lo <= fkey C <= fkey hi.
Proof.
  cbn [in_bucket f_le binary64]. intros [H1 H2]%andb_prop.
  apply leb_true_keys in H1, H2.
  destruct H1 as (? & ? & ?), H2 as (? & ? & ?). auto.
Qed.

Lemma sound_bucket_monotone (b : @breakpoint float) (C1 C2 : float) :
  sound_bucket b ->
  in_bucket C1 b = true -> in_bucket C2 b = true ->
  (C1 <=? C2)%float = true ->
  exists a1 a2,
    index_at C1 b = Ret (Some a1) /\ index_at C2 b = Ret (Some a2) /\ a1 <= a2.
Proof.
  destruct b as [[[lo hi] il] ih].
  intros (k & Hk & Nk & Nlo & Nhi & Ni & Hr) H1 H2 H12.
  apply in_bucket_keys in H1, H2.
  destruct H1 as (N1 & _ & L1 & U1), H2 as (N2 & _ & L2 & U2).
  apply leb_true_keys in H12. destruct H12 as (_ & _ & L12).
  pose proof (nn_key lo Nlo) as [_ Hlo0].
  assert (Hhi : fkey hi < value_bound) by (destruct Hr as (? & _); assumption).
  assert (Hpow : value_bound < huge) by (apply pow2_lt; lia).
  assert (NC1 : nn C1) by (apply key_nn; [exact N1 | lia]).
  assert (NC2 : nn C2) by (apply key_nn; [exact N2 | lia]).
  destruct (line_monotone k lo (B64.of_Z il) C2 hi Nk Nlo Ni NC2 Nhi L2 U2 Hr)
    as (Hr2 & _).
  destruct (line_monotone k lo (B64.of_Z il) C1 C2 Nk Nlo Ni NC1 NC2 L1 L12 Hr2)
    as (_ & Na1 & Na2 & La).
  destruct (round_monotone _ _ Na1 Na2 La) as (n1 & n2 & R1 & R2 & Hn).
  exists n1, n2. unfold index_at.
  cbn [interpolate f_div f_of_Z f_sub f_add f_mul f_round binary64].
  rewrite Hk, !py_bind_ret. fold (line k lo (B64.of_Z il) C1).
  fold (line k lo (B64.of_Z il) C2). rewrite R1, R2, !py_bind_ret.
  auto.
Qed.

Lemma ascending64_sound (table : list (@breakpoint float)) (b : @breakpoint float) :
  ascending64 table -> In b table -> sound_bucket b.
Proof.
  induction table as [| b0 rest IH]; [intros _ [] |].
  intros (Hok & _ & Hrest) [-> | Hin]; [exact Hok | apply IH; assumption].
Qed.

Lemma ascending64_first (table : list (@breakpoint float))
    (b : @breakpoint float) (C : float) :
  ascending64 table -> In b table -> in_bucket C b = true ->
  first_bucket C table = Some b.
Proof.
  unfold first_bucket.
  induction table as [| b0 rest IH]; [intros _ [] |].
  intros (Hok & Hbefore & Hrest) Hin HC. cbn [find].
  destruct Hin as [-> | Hin]; [rewrite HC; reflexivity |].
  assert (H0 : in_bucket C b0 = false).
  { rewrite List.Forall_forall in Hbefore. specialize (Hbefore b Hin).
    destruct b0 as [[[lo0 hi0] il0] ih0], b as [[[lo hi] il] ih].
    cbn [ends_before64] in Hbefore.
    destruct Hok as (_ & _ & _ & _ & Nhi0 & _).
    apply nn_key in Nhi0. destruct Nhi0 as [Nhi0 _].
    apply in_bucket_keys in HC. destruct HC as (NC & _ & L & _).
    cbn [in_bucket f_le binary64]. apply andb_false_iff. right.
    rewrite (leb_key C hi0 NC Nhi0). apply Z.leb_gt. lia. }
  rewrite H0. apply IH; assumption.
Qed.

Ltac check_value :=
  lazymatch goal with
  | |- _ /\ _ => split
  | |- exists _, _ => eexists
  | |- Forall _ [] => apply Forall_nil
  | |- Forall _ (_ :: _) => apply Forall_cons
  | |- True => exact I
  | |- _ = Ret _ => vm_compute; reflexivity
  | |- nn _ => vm_compute; exact I
  | |- in_range _ _ _ _ => unfold in_range
  | |- (_ < _)%Z => vm_compute; reflexivity
  end.

Lemma binary64_tables_ascending :
  ascending64 PM25_BREAKPOINTS /\ ascending64 PM10_BREAKPOINTS.
Proof.
  cbv [PM25_BREAKPOINTS PM10_BREAKPOINTS from_literals PM25_rows PM10_rows
       row map ascending64 sound_bucket ends_before64].
  repeat check_value.
Qed.

(** C8: in either table, two concentrations [C1 <= C2] of one bucket get
    indices [a1 <= a2]: the rounded interpolation, evaluated in binary64
    arithmetic as the code does, is defined and does not decrease within a
    bucket. *)
Theorem aqi_monotone_within_bucket (table : list (@breakpoint float))
    (b : @breakpoint float) (C1 C2 : float) :
  table = PM25_BREAKPOINTS \/ table = PM10_BREAKPOINTS ->
  In b table ->
  in_bucket C1 b = true -> in_bucket C2 b = true ->
  (C1 <=? C2)%float = true ->
  exists a1 a2,
    calc_aqi_from_breakpoints (Some C1) table = Ret (Some a1) /\
    calc_aqi_from_breakpoints (Some C2) table = Ret (Some a2) /\
    a1 <= a2.
Proof.
  intros Htable Hin H1 H2 H12.
  assert (Hasc : ascending64 table).
  { destruct Htable as [-> | ->]; apply binary64_tables_ascending. }
  cbn [calc_aqi_from_breakpoints]. rewrite !bucket_loop_first.
  rewrite (ascending64_first table b C1 Hasc Hin H1).
  rewrite (ascending64_first table b C2 Hasc Hin H2).
  apply sound_bucket_monotone; try assumption.
  eapply ascending64_sound; eassumption.
Qed.

Lemma aqi_never_raises (table : list (@breakpoint float)) (C : float) :
  table = PM25_BREAKPOINTS \/ table = PM10_BREAKPOINTS ->
  calc_aqi_from_breakpoints (Some C) table = Ret None \/
  exists n, calc_aqi_from_breakpoints (Some C) table = Ret (Some n).
Proof.
  intros Htable.
  assert (Hasc : ascending64 table).
  { destruct Htable as [-> | ->]; apply binary64_tables_ascending. }
  cbn [calc_aqi_from_breakpoints]. rewrite bucket_loop_first.
  destruct (first_bucket C table) as [b |] eqn:Eb; [right | left; reflexivity].
  apply find_some in Eb. destruct Eb as [Hin HC].
  assert (HCC : (C <=? C)%float = true).
  { destruct b as [[[lo hi] il] ih].
    apply in_bucket_keys in HC. destruct HC as (NC & _).
    rewrite (leb_key C C NC NC). apply Z.leb_refl. }
  destruct (sound_bucket_monotone b C C (ascending64_sound table b Hasc Hin)
              HC HC HCC) as (a1 & _ & E1 & _).
  exists a1. exact E1.
Qed.

(** C3, as the code has it: the index is absent exactly when the
    concentration lies in no bucket.  That is so below 0 and above the top
    bound, and also strictly between the high bound of one bucket and the
    low bound of the next, because the ranges are not contiguous; a NaN
    lies in no bucket either.  Every other concentration gets an index:
    the computation does not raise. *)
Theorem aqi_absent_iff_outside (C : float) :
  (calc_aqi_from_breakpoints (Some C) PM25_BREAKPOINTS = Ret None <->
   is_nan C = true \/ (C <? 0.0)%float = true \/ (500.4 <? C)%float = true \/
   strictly_between 12.0 12.1 C = true \/
   strictly_between 35.4 35.5 C = true \/
   strictly_between 55.4 55.5 C = true \/
   strictly_between 150.4 150.5 C = true \/
   strictly_between 250.4 250.5 C = true) /\
  (calc_aqi_from_breakpoints (Some C) PM10_BREAKPOINTS = Ret None <->
   is_nan C = true \/ (C <? 0)%float = true \/ (604 <? C)%float = true \/
   strictly_between 54 55 C = true \/
   strictly_between 154 155 C = true \/
   strictly_between 254 255 C = true \/
   strictly_between 354 355 C = true \/
   strictly_between 424 425 C = true) /\
  (calc_aqi_from_breakpoints (Some C) PM25_BREAKPOINTS = Ret None \/
   exists n, calc_aqi_from_breakpoints (Some C) PM25_BREAKPOINTS = Ret (Some n)) /\
  (calc_aqi_from_breakpoints (Some C) PM10_BREAKPOINTS = Ret None \/
   exists n, calc_aqi_from_breakpoints (Some C) PM10_BREAKPOINTS = Ret (Some n)).
Proof.
  destruct (absent_iff_outside C) as [H25 H10].
  split; [exact H25 |]. split; [exact H10 |].
  split; apply aqi_never_raises; auto.
Qed.

(** C4: the combined AQI is the maximum of the two sub-indices when both
    are present, the present one when exactly one is, and absent when
    neither is; a sub-index is absent when its concentration is absent or
    lies outside every bucket.  The sub-indices are always computed: nothing
    raises. *)
Theorem calc_aqi_combines (pm25 pm10 : option float) :
  exists a25 a10,
    calc_aqi_from_breakpoints pm25 PM25_BREAKPOINTS = Ret a25 /\
    calc_aqi_from_breakpoints pm10 PM10_BREAKPOINTS = Ret a10 /\
    (pm25 = None -> a25 = None) /\ (pm10 = None -> a10 = None) /\
    calc_aqi pm25 pm10 = Ret (worse_of a25 a10) /\
    (forall x y, a25 = Some x -> a10 = Some y ->
       calc_aqi pm25 pm10 = Ret (Some (Z.max x y))) /\
    (forall x, a25 = Some x -> a10 = None -> calc_aqi pm25 pm10 = Ret (Some x)) /\
    (forall y, a25 = None -> a10 = Some y -> calc_aqi pm25 pm10 = Ret (Some y)) /\
    (a25 = None -> a10 = None -> calc_aqi pm25 pm10 = Ret None).
Proof.
  assert (H25 : exists a, calc_aqi_from_breakpoints pm25 PM25_BREAKPOINTS = Ret a
                          /\ (pm25 = None -> a = None)).
  { destruct pm25 as [C |].
    - destruct (aqi_never_raises PM25_BREAKPOINTS C) as [E | [n E]];
        [left; reflexivity | | ]; rewrite E; eexists; (split; [reflexivity | discriminate]).
    - exists None. split; reflexivity. }
  assert (H10 : exists a, calc_aqi_from_breakpoints pm10 PM10_BREAKPOINTS = Ret a
                          /\ (pm10 = None -> a = None)).
  { destruct pm10 as [C |].
    - destruct (aqi_never_raises PM10_BREAKPOINTS C) as [E | [n E]];
        [right; reflexivity | | ]; rewrite E; eexists; (split; [reflexivity | discriminate]).
    - exists None. split; reflexivity. }
  destruct H25 as (a25 & E25 & N25), H10 as (a10 & E10 & N10).
  exists a25, a10.
  pose proof (calc_aqi_worse_of pm25 pm10 a25 a10 E25 E10) as Hw.
  split; [exact E25 |]. split; [exact E10 |].
  split; [exact N25 |]. split; [exact N10 |]. split; [exact Hw |].
  repeat apply conj; intros; subst; exact Hw.
Qed.

End Binary64Monotone.

Lemma calc_aqi_combines_witness :
  calc_aqi (F:=float) (Some 35.4%float) (Some 60%float) = Ret (Some 100) /\
  calc_aqi (F:=float) None (Some 60%float) = Ret (Some 53) /\
  calc_aqi (F:=float) (Some 12.05%float) None = Ret None.
Proof.
  destruct (calc_aqi_combines (Some 35.4%float) (Some 60%float))
    as (a & b & Ea & Eb & _ & _ & _ & Hboth & _).
  destruct (calc_aqi_combines None (Some 60%float))
    as (c & d & Ec & Ed & _ & _ & _ & _ & _ & Hright & _).
  destruct (calc_aqi_combines (Some 12.05%float) None)
    as (g & h & Eg & Eh & _ & _ & _ & _ & _ & _ & Hnone).
  vm_compute in Ea, Eb, Ec, Ed, Eg, Eh.
  injection Ea as <-. injection Eb as <-. injection Ec as <-.
  injection Ed as <-. injection Eg as <-. injection Eh as <-.
  split; [exact (Hboth 100 53 eq_refl eq_refl) |].
  split; [exact (Hright 53 eq_refl eq_refl) | exact (Hnone eq_refl eq_refl)].
Defined.

Lemma aqi_monotone_within_bucket_witness :
  exists a1 a2,
    calc_aqi_from_breakpoints (F:=float) (Some 20.0%float) PM25_BREAKPOINTS
      = Ret (Some a1) /\
    calc_aqi_from_breakpoints (F:=float) (Some 20.2%float) PM25_BREAKPOINTS
      = Ret (Some a2) /\
    a1 <= a2.
Proof.
  apply (aqi_monotone_within_bucket PM25_BREAKPOINTS
           (f_lit 12.1, f_lit 35.4, 51, 100) 20.0%float 20.2%float).
  - left. reflexivity.
  - right. left. reflexivity.
  - vm_compute. reflexivity.
  - vm_compute. reflexivity.
  - vm_compute. reflexivity.
Defined.

(** ** History pruning *)

Section HistoryPruning.

Import B64.

Context (cfg : settings float).

Lemma sub_diag_zero (x : float) :
  is_finite x = true -> (x - x)%float = 0%float.
Proof.
  intros Hx. apply Prim2SF_inj. rewrite (sub_diag x Hx). reflexivity.
Qed.

(** [float(n)] of a natural number below 2^1023 is zero or positive. *)
Lemma of_Z_nn (n : Z) : 0 <= n < 2 ^ 1023 -> nn (B64.of_Z n).
Proof.
  intros [Hn0 Hn]. unfold nn, B64.of_Z.
  destruct n as [| p | p]; try lia; cbn [binary_normalize].
  - rewrite Prim2SF_SF2Prim by reflexivity. exact I.
  - pose proof (digits2_bounds p) as [Dlo _].
    assert (Hd : Z.pos (digits2_pos p) + 0 <= 1023).
    { assert (Hlt : 2 ^ (Z.pos (digits2_pos p) - 1) < 2 ^ 1023)
        by (eapply Z.le_lt_trans; eassumption).
      apply pow2_lt_inv in Hlt; lia. }
    destruct (binary_round_rounds_to p 0 ltac:(unfold scale; lia) Hd)
      as (Hv & Hnn & _).
    rewrite Prim2SF_SF2Prim by exact Hv. exact Hnn.
Qed.

Lemma zero_leb_nn (r : float) : nn r -> (0 <=? r)%float = true.
Proof.
  intros Hr. destruct (nn_key r Hr) as [Hn Hk].
  rewrite (leb_key 0 r eq_refl Hn). apply Z.leb_le. exact Hk.
Qed.

Lemma leb_refl_nn (r : float) : nn r -> (r <=? r)%float = true.
Proof.
  intros Hr. destruct (nn_key r Hr) as [Hn _].
  rewrite (leb_key r r Hn Hn). apply Z.leb_refl.
Qed.

(** C5: after [update_history] the sequence of the location is the prior
    entries whose age [now - ts] is at most the retention window, in their
    order, followed by the new entry; the age is taken against the
    timestamp just appended, an entry whose age is exactly the window is
    kept, and the other locations are untouched.  The timestamp is a finite
    number, and the window is a number of seconds from 0 to 2^53. *)
Theorem update_history_prunes
    (history : gmap string (list (history_entry float))) (key : string)
    (now : float) (a : option Z) (p25 p10 : option float) :
  let window := HOURS_HISTORY cfg * 3600 in
  let prior := default [] (history !! key) in
  let updated := update_history cfg history key now a p25 p10 in
  is_finite now = true ->
  0 <= window <= 2 ^ 53 ->
  updated !! key
    = Some (List.filter (fun e => (now - ts e <=? f_of_Z window)%float) prior
            ++ [ {| ts := now; aqi := a; pm25 := p25; pm10 := p10 |} ]) /\
  (forall e, In e prior -> (now - ts e)%float = f_of_Z window ->
     exists kept, updated !! key = Some kept /\ In e kept) /\
  (forall other, other <> key -> updated !! other = history !! other).
Proof.
  intros window prior updated Hfin Hwin.
  assert (Hnn : nn (B64.of_Z window)).
  { apply of_Z_nn. split; [lia |].
    eapply Z.le_lt_trans; [apply Hwin | apply pow2_lt; lia]. }
  assert (Hkey : updated !! key
    = Some (List.filter (fun e => (now - ts e <=? f_of_Z window)%float) prior
            ++ [ {| ts := now; aqi := a; pm25 := p25; pm10 := p10 |} ])).
  { unfold updated, update_history. rewrite lookup_insert_eq. f_equal.
    rewrite List.filter_app. f_equal.
    cbn [List.filter fresh_enough ts f_le f_sub f_of_Z binary64].
    rewrite (sub_diag_zero now Hfin).
    fold window. rewrite (zero_leb_nn _ Hnn). reflexivity. }
  split; [exact Hkey |]. split.
  - intros e Hin Hage. eexists. split; [exact Hkey |].
    apply in_or_app. left. apply List.filter_In. split; [exact Hin |].
    rewrite Hage. apply leb_refl_nn. exact Hnn.
  - intros other Hne. unfold updated, update_history.
    apply lookup_insert_ne. congruence.
Qed.

End HistoryPruning.

Lemma update_history_prunes_witness :
  update_history source_settings history_example "home" now_example
    (Some 42) None None !! "home"%string
  = Some [ sample 1700000000.0 57; sample 1700082800.0 49;
           {| ts := now_example; aqi := Some 42; pm25 := None; pm10 := None |} ].
Proof.
  destruct (update_history_prunes source_settings history_example "home"
              now_example (Some 42) None None) as (Hkey & _).
  - reflexivity.
  - split; [discriminate | vm_compute; discriminate].
  - rewrite Hkey. reflexivity.
Defined.

(** ** Index ranges *)

Section IndexRangeProperties.

Import B64.

Ltac check_table :=
  lazymatch goal with
  | |- _ /\ _ => split
  | |- Forall _ [] => apply List.Forall_nil
  | |- Forall _ (_ :: _) => apply List.Forall_cons
  | |- True => exact I
  | |- _ = _ => vm_compute; reflexivity
  | |- (_ < _)%Z => vm_compute; reflexivity
  end.

Lemma binary64_tables_stepped :
  stepped PM25_BREAKPOINTS /\ stepped PM10_BREAKPOINTS.
Proof.
  cbv [PM25_BREAKPOINTS PM10_BREAKPOINTS from_literals PM25_rows PM10_rows
       row map stepped exact_ends index_below].
  repeat check_table.
Qed.

Lemma stepped_ends (table : list (@breakpoint float)) (b : @breakpoint float) :
  stepped table -> In b table -> exact_ends b.
Proof.
  induction table as [| b0 rest IH]; [intros _ [] |].
  intros (Hok & _ & Hrest) [-> | Hin]; [exact Hok | apply IH; assumption].
Qed.

Lemma in_bucket_leb (C lo hi : float) (il ih : Z) :
  in_bucket C (lo, hi, il, ih) = true ->
  (lo <=? C)%float = true /\ (C <=? hi)%float = true.
Proof.
  cbn [in_bucket f_le binary64]. intros [H1 H2]%andb_prop. auto.
Qed.

(** Within a sound bucket whose ends get the index bounds, every
    concentration gets an index between the bounds. *)
Lemma bucket_index_range (b : @breakpoint float) (C : float) :
  sound_bucket b -> exact_ends b -> in_bucket C b = true ->
  exists n, index_at C b = Ret (Some n) /\ Ilow_of b <= n <= Ihigh_of b.
Proof.
  intros Hs He HC.
  destruct b as [[[lo hi] il] ih].
  destruct He as (Hlo & Hhi & Elo & Ehi).
  destruct (in_bucket_leb _ _ _ _ _ HC) as [HloC HChi].
  destruct (sound_bucket_monotone _ lo C Hs Hlo HC HloC) as (a1 & a2 & E1 & E2 & L12).
  destruct (sound_bucket_monotone _ C hi Hs HC Hhi HChi) as (a2' & a3 & E2' & E3 & L23).
  rewrite Elo in E1. rewrite Ehi in E3. rewrite E2 in E2'.
  injection E1 as <-. injection E3 as <-. injection E2' as <-.
  exists a2. split; [exact E2 |]. cbn. lia.
Qed.

Lemma table_index_range (table : list (@breakpoint float))
    (b : @breakpoint float) (C : float) :
  ascending64 table -> stepped table -> In b table -> in_bucket C b = true ->
  exists n, calc_aqi_from_breakpoints (Some C) table = Ret (Some n) /\
    Ilow_of b <= n <= Ihigh_of b.
Proof.
  intros Hasc Hst Hin HC.
  cbn [calc_aqi_from_breakpoints]. rewrite bucket_loop_first.
  rewrite (ascending64_first table b C Hasc Hin HC).
  apply bucket_index_range; try assumption.
  - eapply ascending64_sound; eassumption.
  - eapply stepped_ends; eassumption.
Qed.

Lemma source_table (table : list (@breakpoint float)) :
  table = PM25_BREAKPOINTS \/ table = PM10_BREAKPOINTS ->
  ascending64 table /\ stepped table.
Proof.
  intros [-> | ->]; split;
    (apply binary64_tables_ascending || apply binary64_tables_stepped).
Qed.

(** X1: in either table, a concentration inside a bucket gets an index
    between the two index bounds of that bucket, in binary64 arithmetic:
    rounding errors of the interpolation never carry the index out of the
    range of its row. *)
Theorem sub_index_within_bucket_bounds (table : list (@breakpoint float))
    (b : @breakpoint float) (C : float) :
  table = PM25_BREAKPOINTS \/ table = PM10_BREAKPOINTS ->
  In b table -> in_bucket C b = true ->
  exists n, calc_aqi_from_breakpoints (Some C) table = Ret (Some n) /\
    Ilow_of b <= n <= Ihigh_of b.
Proof.
  intros Htable. destruct (source_table table Htable) as [Hasc Hst].
  apply table_index_range; assumption.
Qed.

(** Where the loop stops, when it yields an index. *)
Lemma index_bucket (table : list (@breakpoint float)) (C : float) (n : Z) :
  calc_aqi_from_breakpoints (Some C) table = Ret (Some n) ->
  exists b, In b table /\ in_bucket C b = true /\ first_bucket C table = Some b.
Proof.
  cbn [calc_aqi_from_breakpoints]. rewrite bucket_loop_first.
  destruct (first_bucket C table) as [b |] eqn:Eb; [| discriminate].
  intros _. exists b. apply find_some in Eb. destruct Eb. auto.
Qed.

(** Two concentrations in order stop in the same bucket, or the first in
    a bucket whose index range ends below that of the second. *)
Lemma first_buckets_ordered (table : list (@breakpoint float)) (C1 C2 : float)
    (b1 b2 : @breakpoint float) :
  ascending64 table -> stepped table ->
  first_bucket C1 table = Some b1 -> first_bucket C2 table = Some b2 ->
  (C1 <=? C2)%float = true ->
  b1 = b2 \/ Ihigh_of b1 < Ilow_of b2.
Proof.
  intros Hasc Hst F1 F2 H12. revert Hasc Hst F1 F2. unfold first_bucket.
  induction table as [| b rest IH]; [discriminate |].
  intros (Hok & Hbefore & Hrest) (Hends & Hbelow & Hstep) F1 F2.
  cbn [find] in F1, F2.
  destruct (in_bucket C1 b) eqn:B1; destruct (in_bucket C2 b) eqn:B2.
  - left. congruence.
  - right. injection F1 as <-.
    apply find_some in F2. destruct F2 as [In2 _].
    rewrite List.Forall_forall in Hbelow. specialize (Hbelow b2 In2).
    destruct b as [[[lo1 hi1] il1] ih1], b2 as [[[lo2 hi2] il2] ih2].
    exact Hbelow.
  - exfalso. injection F2 as <-.
    apply find_some in F1. destruct F1 as [In1 HC1].
    rewrite List.Forall_forall in Hbefore. specialize (Hbefore b1 In1).
    destruct b1 as [[[lo1 hi1] il1] ih1], b as [[[lo2 hi2] il2] ih2].
    cbn [ends_before64] in Hbefore.
    apply in_bucket_keys in HC1, B2.
    apply leb_true_keys in H12. lia.
  - apply IH; assumption.
Qed.

Lemma monotone_across (table : list (@breakpoint float)) (C1 C2 : float)
    (n1 n2 : Z) :
  ascending64 table -> stepped table ->
  calc_aqi_from_breakpoints (Some C1) table = Ret (Some n1) ->
  calc_aqi_from_breakpoints (Some C2) table = Ret (Some n2) ->
  (C1 <=? C2)%float = true -> n1 <= n2.
Proof.
  intros Hasc Hst E1 E2 H12.
  destruct (index_bucket table C1 n1 E1) as (b1 & In1 & HC1 & F1).
  destruct (index_bucket table C2 n2 E2) as (b2 & In2 & HC2 & F2).
  destruct (first_buckets_ordered table C1 C2 b1 b2 Hasc Hst F1 F2 H12)
    as [<- | Hlt].
  - destruct (sound_bucket_monotone b1 C1 C2
                (ascending64_sound table b1 Hasc In1) HC1 HC2 H12)
      as (a1 & a2 & A1 & A2 & L).
    cbn [calc_aqi_from_breakpoints] in E1, E2.
    rewrite bucket_loop_first in E1, E2. rewrite F1 in E1. rewrite F2 in E2.
    unfold index_at in A1, A2. rewrite E1 in A1. rewrite E2 in A2.
    injection A1 as <-. injection A2 as <-. exact L.
  - destruct (table_index_range table b1 C1 Hasc Hst In1 HC1) as (m1 & M1 & R1).
    destruct (table_index_range table b2 C2 Hasc Hst In2 HC2) as (m2 & M2 & R2).
    rewrite E1 in M1. rewrite E2 in M2. injection M1 as <-. injection M2 as <-.
    lia.
Qed.

(** X2: in either table, of two concentrations that both get an index the
    greater never gets the smaller index, also when they lie in different
    buckets. *)
Theorem sub_index_never_decreases (table : list (@breakpoint float))
    (C1 C2 : float) (n1 n2 : Z) :
  table = PM25_BREAKPOINTS \/ table = PM10_BREAKPOINTS ->
  calc_aqi_from_breakpoints (Some C1) table = Ret (Some n1) ->
  calc_aqi_from_breakpoints (Some C2) table = Ret (Some n2) ->
  (C1 <=? C2)%float = true -> n1 <= n2.
Proof.
  intros Htable. destruct (source_table table Htable) as [Hasc Hst].
  apply monotone_across; assumption.
Qed.

Lemma table_bounds :
  Forall (fun b => 0 <= Ilow_of b /\ Ihigh_of b <= 500)
    (PM25_BREAKPOINTS (F:=float)) /\
  Forall (fun b => 0 <= Ilow_of b /\ Ihigh_of b <= 500)
    (PM10_BREAKPOINTS (F:=float)).
Proof.
  cbv [PM25_BREAKPOINTS PM10_BREAKPOINTS from_literals PM25_rows PM10_rows row map].
  split; repeat (apply List.Forall_cons; [cbn; lia |]); apply List.Forall_nil.
Qed.

Lemma sub_index_0_500 (table : list (@breakpoint float)) (C : option float) :
  table = PM25_BREAKPOINTS \/ table = PM10_BREAKPOINTS ->
  exists a, calc_aqi_from_breakpoints C table = Ret a /\
    forall n, a = Some n -> 0 <= n <= 500.
Proof.
  intros Htable. destruct C as [C |]; [| exists None; split; [reflexivity | discriminate]].
  destruct (aqi_never_raises table C Htable) as [E | [n E]].
  - exists None. split; [exact E | discriminate].
  - exists (Some n). split; [exact E |]. intros n' [= <-].
    destruct (index_bucket table C n E) as (b & Hin & HC & _).
    destruct (source_table table Htable) as [Hasc Hst].
    destruct (table_index_range table b C Hasc Hst Hin HC) as (m & M & R).
    rewrite E in M. injection M as <-.
    assert (Hb : 0 <= Ilow_of b /\ Ihigh_of b <= 500).
    { destruct table_bounds as [T25 T10].
      rewrite List.Forall_forall in T25, T10.
      destruct Htable as [-> | ->]; auto. }
    lia.
Qed.

(** X3: [calc_aqi] never raises, and the combined index, when there is
    one, lies between 0 and 500. *)
Theorem combined_index_between_0_and_500 (pm25 pm10 : option float) :
  calc_aqi pm25 pm10 = Ret None \/
  exists n, calc_aqi pm25 pm10 = Ret (Some n) /\ 0 <= n <= 500.
Proof.
  destruct (sub_index_0_500 PM25_BREAKPOINTS pm25 (or_introl eq_refl))
    as (a25 & E25 & R25).
  destruct (sub_index_0_500 PM10_BREAKPOINTS pm10 (or_intror eq_refl))
    as (a10 & E10 & R10).
  rewrite (calc_aqi_worse_of pm25 pm10 a25 a10 E25 E10).
  destruct a25 as [x |], a10 as [y |]; cbn [worse_of];
    [right | right | right | left; reflexivity]; eexists;
    (split; [reflexivity |]).
  - specialize (R25 x eq_refl). specialize (R10 y eq_refl). lia.
  - exact (R25 x eq_refl).
  - exact (R10 y eq_refl).
Qed.

Lemma tables_one_band :
  Forall one_band (PM25_BREAKPOINTS (F:=float)) /\
  Forall one_band (PM10_BREAKPOINTS (F:=float)).
Proof.
  cbv [PM25_BREAKPOINTS PM10_BREAKPOINTS from_literals PM25_rows PM10_rows row map].
  split; repeat (apply List.Forall_cons;
    [ unfold one_band, Ilow_of, Ihigh_of; cbn [fst snd]; intros n Hn;
      unfold category_and_color;
      repeat match goal with
             | |- context [?a <=? ?b] => destruct (Z.leb_spec a b); try lia
             end; reflexivity |]); apply List.Forall_nil.
Qed.

(** X4: the category and colour of a sub-index depend on the bucket of
    the concentration alone: every concentration of a bucket gets the
    category and colour of the high index bound of the bucket. *)
Theorem category_is_fixed_by_the_bucket (table : list (@breakpoint float))
    (b : @breakpoint float) (C : float) :
  table = PM25_BREAKPOINTS \/ table = PM10_BREAKPOINTS ->
  In b table -> in_bucket C b = true ->
  exists n, calc_aqi_from_breakpoints (Some C) table = Ret (Some n) /\
    category_and_color n = category_and_color (Ihigh_of b).
Proof.
  intros Htable Hin HC. destruct (source_table table Htable) as [Hasc Hst].
  destruct (table_index_range table b C Hasc Hst Hin HC) as (n & E & R).
  exists n. split; [exact E |].
  destruct tables_one_band as [T25 T10].
  rewrite List.Forall_forall in T25, T10.
  destruct Htable as [-> | ->]; [apply (T25 b Hin) | apply (T10 b Hin)]; exact R.
Qed.

End IndexRangeProperties.

Lemma sub_index_within_bucket_bounds_witness :
  exists n,
    calc_aqi_from_breakpoints (F:=float) (Some 20.0%float) PM25_BREAKPOINTS
      = Ret (Some n) /\ 51 <= n <= 100.
Proof.
  apply (sub_index_within_bucket_bounds PM25_BREAKPOINTS
           (f_lit 12.1, f_lit 35.4, 51, 100) 20.0%float).
  - left. reflexivity.
  - right. left. reflexivity.
  - vm_compute. reflexivity.
Defined.

Lemma sub_index_never_decreases_witness :
  calc_aqi_from_breakpoints (F:=float) (Some 12.0%float) PM25_BREAKPOINTS
    = Ret (Some 50) /\
  calc_aqi_from_breakpoints (F:=float) (Some 35.7%float) PM25_BREAKPOINTS
    = Ret (Some 101) /\
  50 <= 101.
Proof.
  assert (E1 : calc_aqi_from_breakpoints (F:=float) (Some 12.0%float)
                 PM25_BREAKPOINTS = Ret (Some 50)) by (vm_compute; reflexivity).
  assert (E2 : calc_aqi_from_breakpoints (F:=float) (Some 35.7%float)
                 PM25_BREAKPOINTS = Ret (Some 101)) by (vm_compute; reflexivity).
  split; [exact E1 |]. split; [exact E2 |].
  apply (sub_index_never_decreases PM25_BREAKPOINTS 12.0%float 35.7%float 50 101).
  - left. reflexivity.
  - exact E1.
  - exact E2.
  - vm_compute. reflexivity.
Defined.

Lemma category_is_fixed_by_the_bucket_witness :
  exists n,
    calc_aqi_from_breakpoints (F:=float) (Some 40.0%float) PM25_BREAKPOINTS
      = Ret (Some n) /\
    category_and_color n = ("Unhealthy for sensitive", "255,153,0,220")%string.
Proof.
  apply (category_is_fixed_by_the_bucket PM25_BREAKPOINTS
           (f_lit 35.5, f_lit 55.4, 101, 150) 40.0%float).
  - left. reflexivity.
  - right. right. left. reflexivity.
  - vm_compute. reflexivity.
Defined.

Lemma combined_index_between_0_and_500_witness :
  exists n, calc_aqi (F:=float) (Some 40.0%float) (Some 700.0%float) = Ret (Some n)
    /\ 0 <= n <= 500.
Proof.
  destruct (combined_index_between_0_and_500 (Some 40.0%float) (Some 700.0%float))
    as [E | H]; [vm_compute in E; discriminate | exact H].
Defined.

(** ** Category bands *)

(** X5: the categories are bands of consecutive indices (an index between
    two indices of one category has that category), and category and colour
    determine each other. *)
Theorem category_bands :
  (forall a b c : Z, a <= b <= c ->
     category_and_color a = category_and_color c ->
     category_and_color b = category_and_color a) /\
  (forall a b : Z,
     fst (category_and_color a) = fst (category_and_color b) <->
     snd (category_and_color a) = snd (category_and_color b)).
Proof.
  unfold category_and_color. repeat apply conj.
  - intros a b c Hab.
    repeat match goal with
           | |- context [?x <=? ?y] => destruct (Z.leb_spec x y)
           end; try lia; try reflexivity; intros; discriminate.
  - intros a b.
    repeat match goal with
           | |- context [?x <=? ?y] => destruct (Z.leb_spec x y)
           end; cbn [fst snd]; split; intros Heq; try reflexivity; discriminate.
Qed.

Lemma category_bands_witness :
  category_and_color 75 = category_and_color 51 /\
  category_and_color 75 = ("Moderate", "255,220,0,220")%string.
Proof.
  destruct category_bands as [Hband _].
  split; [apply (Hband 51 75 100); [lia | reflexivity] | reflexivity].
Defined.

(** ** The combined index along a rising concentration *)

Section CombinedMonotone.

Lemma worse_of_monotone (a1 a2 : Z) (other : option Z) (n1 n2 : Z) :
  a1 <= a2 ->
  (worse_of (Some a1) other = Some n1 -> worse_of (Some a2) other = Some n2 ->
   n1 <= n2) /\
  (worse_of other (Some a1) = Some n1 -> worse_of other (Some a2) = Some n2 ->
   n1 <= n2).
Proof.
  intros Hle. destruct other as [o |]; cbn [worse_of]; split;
    intros [= <-] [= <-]; lia.
Qed.

(** X19: when one concentration rises from a value that gets a sub-index
    to another that gets one, and the other concentration stays as it is,
    the combined AQI does not decrease. *)
Theorem combined_index_never_decreases
    (C1 C2 : float) (other : option float) (a1 a2 n1 n2 : Z) :
  (C1 <=? C2)%float = true ->
  (calc_aqi_from_breakpoints (Some C1) PM25_BREAKPOINTS = Ret (Some a1) ->
   calc_aqi_from_breakpoints (Some C2) PM25_BREAKPOINTS = Ret (Some a2) ->
   calc_aqi (Some C1) other = Ret (Some n1) ->
   calc_aqi (Some C2) other = Ret (Some n2) -> n1 <= n2) /\
  (calc_aqi_from_breakpoints (Some C1) PM10_BREAKPOINTS = Ret (Some a1) ->
   calc_aqi_from_breakpoints (Some C2) PM10_BREAKPOINTS = Ret (Some a2) ->
   calc_aqi other (Some C1) = Ret (Some n1) ->
   calc_aqi other (Some C2) = Ret (Some n2) -> n1 <= n2).
Proof.
  intros H12. split; intros E1 E2 N1 N2.
  - destruct (sub_index_0_500 PM10_BREAKPOINTS other (or_intror eq_refl))
      as (o & Eo & _).
    rewrite (calc_aqi_worse_of _ _ _ _ E1 Eo) in N1.
    rewrite (calc_aqi_worse_of _ _ _ _ E2 Eo) in N2.
    injection N1 as N1. injection N2 as N2.
    destruct (source_table PM25_BREAKPOINTS (or_introl eq_refl)) as [Hasc Hst].
    pose proof (monotone_across _ _ _ _ _ Hasc Hst E1 E2 H12) as Hle.
    destruct (worse_of_monotone a1 a2 o n1 n2 Hle) as [Hm _]. auto.
  - destruct (sub_index_0_500 PM25_BREAKPOINTS other (or_introl eq_refl))
      as (o & Eo & _).
    rewrite (calc_aqi_worse_of _ _ _ _ Eo E1) in N1.
    rewrite (calc_aqi_worse_of _ _ _ _ Eo E2) in N2.
    injection N1 as N1. injection N2 as N2.
    destruct (source_table PM10_BREAKPOINTS (or_intror eq_refl)) as [Hasc Hst].
    pose proof (monotone_across _ _ _ _ _ Hasc Hst E1 E2 H12) as Hle.
    destruct (worse_of_monotone a1 a2 o n1 n2 Hle) as [_ Hm]. auto.
Qed.

End CombinedMonotone.

Lemma combined_index_never_decreases_witness :
  calc_aqi (F:=float) (Some 40.0%float) (Some 60%float) = Ret (Some 112) /\
  calc_aqi (F:=float) (Some 55.5%float) (Some 60%float) = Ret (Some 151) /\
  112 <= 151.
Proof.
  assert (N1 : calc_aqi (F:=float) (Some 40.0%float) (Some 60%float)
               = Ret (Some 112)) by (vm_compute; reflexivity).
  assert (N2 : calc_aqi (F:=float) (Some 55.5%float) (Some 60%float)
               = Ret (Some 151)) by (vm_compute; reflexivity).
  split; [exact N1 |]. split; [exact N2 |].
  destruct (combined_index_never_decreases 40.0%float 55.5%float
              (Some 60%float) 112 151 112 151) as [Hpm25 _].
  - vm_compute. reflexivity.
  - apply Hpm25; [vm_compute; reflexivity | vm_compute; reflexivity | exact N1 | exact N2].
Defined.

(** ** Any well-formed table, in exact arithmetic *)







(** ** Measurements of an entry *)

Section ExtractPm.

Context {F : Type}.

Lemma kinds_are_disjoint (vt : option string) :
  one_of vt ["P2"; "SDS_P2"; "PM2.5"; "pm2.5"]%string = true ->
  one_of vt ["P1"; "SDS_P1"; "PM10"; "pm10"]%string = false.
Proof.
  destruct vt as [s |]; [| discriminate]. cbn [one_of existsb].
  rewrite !orb_false_r.
  intros Hs. repeat (apply orb_prop in Hs; destruct Hs as [Hs | Hs]);
    apply String.eqb_eq in Hs; subst s; reflexivity.
Qed.

(** The state of the loop of [extract_pm] after the measurements [l],
    started from [(p25, p10)]. *)
Lemma extract_fold (l : list (measurement F)) (p25 p10 : option F) :
  fold_left
    (fun '(p25, p10) sv =>
       match value sv with
       | None => (p25, p10)
       | Some val =>
           if one_of (value_type sv) ["P2"; "SDS_P2"; "PM2.5"; "pm2.5"]%string
           then (Some val, p10)
           else if one_of (value_type sv) ["P1"; "SDS_P1"; "PM10"; "pm10"]%string
           then (p25, Some val)
           else (p25, p10)
       end) l (p25, p10)
  = (match last (omap pm25_value l) with Some v => Some v | None => p25 end,
     match last (omap pm10_value l) with Some v => Some v | None => p10 end).
Proof.
  revert p25 p10. induction l as [| sv l IH]; intros p25 p10; [reflexivity |].
  cbn [fold_left].
  assert (O25 : omap pm25_value (sv :: l)
                = match pm25_value sv with
                  | Some y => y :: omap pm25_value l
                  | None => omap pm25_value l
                  end) by reflexivity.
  assert (O10 : omap pm10_value (sv :: l)
                = match pm10_value sv with
                  | Some y => y :: omap pm10_value l
                  | None => omap pm10_value l
                  end) by reflexivity.
  rewrite O25, O10. clear O25 O10. unfold pm25_value at 1, pm10_value at 1.
  destruct (one_of (value_type sv) ["P2"; "SDS_P2"; "PM2.5"; "pm2.5"]%string) eqn:E25.
  - rewrite (kinds_are_disjoint _ E25).
    destruct (value sv) as [val |]; rewrite IH; [| reflexivity].
    f_equal. rewrite last_cons. destruct (last (omap pm25_value l)); reflexivity.
  - destruct (one_of (value_type sv) ["P1"; "SDS_P1"; "PM10"; "pm10"]%string) eqn:E10;
      destruct (value sv) as [val |]; rewrite IH; try reflexivity.
    f_equal. rewrite last_cons. destruct (last (omap pm10_value l)); reflexivity.
Qed.

(** X6: [extract_pm] returns, for each of the two kinds, the value of the
    last measurement of that kind whose value converts to a float, and
    [None] when there is none; measurements of other types and values that
    do not convert change nothing. *)
Theorem extract_pm_takes_the_last_of_each_kind (entry : reading F) :
  extract_pm entry
  = (last (omap pm25_value (sensordatavalues entry)),
     last (omap pm10_value (sensordatavalues entry))).
Proof.
  unfold extract_pm. rewrite extract_fold.
  destruct (last (omap pm25_value (sensordatavalues entry)));
    destruct (last (omap pm10_value (sensordatavalues entry))); reflexivity.
Qed.

End ExtractPm.

Lemma extract_pm_takes_the_last_of_each_kind_witness :
  extract_pm vanya_report = (Some 22.4%float, Some 61.0%float).
Proof.
  rewrite extract_pm_takes_the_last_of_each_kind. reflexivity.
Defined.

(** ** The first loop: which of several latest entries *)

Lemma string_ltb_total (a b : string) :
  String.ltb a b = false -> String.ltb b a = true \/ a = b.
Proof.
  unfold String.ltb. destruct (String.compare a b) eqn:E; try discriminate; intros _.
  - right. apply String.compare_eq_iff. exact E.
  - left. rewrite String.compare_antisym, E. reflexivity.
Qed.

Section FirstLoopOrder.

Context {F : Type}.

Lemma first_latest_skip (sid : Z) (seen : list (reading F))
    (st : option string * option (reading F)) (entry : reading F) :
  ~ usable sid entry ->
  first_latest sid seen st -> first_latest sid (seen ++ [entry]) st.
Proof.
  intros Hskip. destruct st as [[t|] [c|]]; cbn [first_latest]; try tauto.
  - intros (Hu & Hs & pre & post & -> & Hpre & Hpost).
    split; [exact Hu |]. split; [exact Hs |].
    exists pre, (post ++ [entry]). rewrite <- app_assoc. split; [reflexivity |].
    split; [exact Hpre |].
    intros r t' [Hr | ->]%in_snoc Hur Hsr; [eauto | contradiction].
  - intros Hnone r [Hr | ->]%in_snoc; [auto | exact Hskip].
Qed.

Lemma first_latest_step (sid : Z) (seen : list (reading F))
    (st : option string * option (reading F)) (entry : reading F) :
  first_latest sid seen st ->
  first_latest sid (seen ++ [entry]) (by_id_step sid st entry).
Proof.
  intros Hinv. destruct st as [latest cand]. unfold by_id_step.
  destruct (bool_decide (sensor_id entry = Some sid)) eqn:Eid; cbn [negb].
  2:{ apply bool_decide_eq_false in Eid.
      apply first_latest_skip; [| exact Hinv]. intros [Hid _]. contradiction. }
  apply bool_decide_eq_true in Eid.
  destruct (truthy (stamp entry)) eqn:Etr; cbn [andb].
  2:{ apply first_latest_skip; [| exact Hinv]. intros [_ Htr]. congruence. }
  assert (Hu : usable sid entry) by (split; assumption).
  destruct (truthy_Some _ Etr) as [te Hte]. rewrite Hte.
  destruct latest as [t|], cand as [c|]; cbn [first_latest] in Hinv;
    try contradiction.
  - destruct Hinv as (Huc & Hs & pre & post & -> & Hpre & Hpost).
    destruct (String.ltb t te) eqn:Elt.
    + cbn [first_latest]. split; [exact Hu |]. split; [exact Hte |].
      exists (pre ++ c :: post), []. split; [reflexivity |].
      split; [| intros r t' []].
      intros r t' Hr Hur Hsr.
      apply in_app_or in Hr. destruct Hr as [Hr | [<- | Hr]].
      * eapply string_ltb_trans; [eapply Hpre; eassumption | exact Elt].
      * assert (t' = t) by congruence. subst t'. exact Elt.
      * destruct (string_ltb_total _ _ (Hpost r t' Hr Hur Hsr)) as [Hlt | ->];
          [eapply string_ltb_trans; eassumption | exact Elt].
    + cbn [first_latest]. split; [exact Huc |]. split; [exact Hs |].
      exists pre, (post ++ [entry]). rewrite <- app_assoc. split; [reflexivity |].
      split; [exact Hpre |].
      intros r t' [Hr | ->]%in_snoc Hur Hsr; [eauto |].
      assert (t' = te) by congruence. subst t'. exact Elt.
  - cbn [first_latest]. split; [exact Hu |]. split; [exact Hte |].
    exists seen, []. split; [reflexivity |]. split; [| intros r t' []].
    intros r t' Hr Hur _. exfalso. eapply Hinv; eassumption.
Qed.

Lemma first_latest_fold (sid : Z) (data : list (reading F)) :
  first_latest sid data (fold_left (by_id_step sid) data (None, None)).
Proof.
  induction data as [| entry data IH] using rev_ind.
  - cbn. intros r [].
  - rewrite fold_left_app. cbn [fold_left]. apply first_latest_step. exact IH.
Qed.

(** X7: the first loop takes the first, in payload order, of the usable
    entries with the greatest timestamp: the usable entries before the
    chosen one are strictly older, those after it are not newer.  When it
    takes nothing, no entry is usable. *)
Theorem by_id_takes_the_first_of_the_latest (sid : Z) (data : list (reading F)) :
  match select_by_id sid data return Prop with
  | Some c =>
      usable sid c /\
      exists pre post t, data = pre ++ c :: post /\ stamp c = Some t /\
        (forall r t', In r pre -> usable sid r -> stamp r = Some t' ->
           String.ltb t' t = true) /\
        (forall r t', In r post -> usable sid r -> stamp r = Some t' ->
           String.ltb t t' = false)
  | None => Forall (fun r => ~ usable sid r) data
  end.
Proof.
  pose proof (first_latest_fold sid data) as Hinv. unfold select_by_id.
  destruct (fold_left (by_id_step sid) data (None, None)) as [[t|] [c|]];
    cbn [first_latest snd] in *; try contradiction.
  - destruct Hinv as (Hu & Hs & pre & post & Hd & Hpre & Hpost).
    split; [exact Hu |]. exists pre, post, t. auto.
  - apply List.Forall_forall. exact Hinv.
Qed.

End FirstLoopOrder.

Lemma by_id_takes_the_first_of_the_latest_witness :
  stamp later = stamp later_twin /\
  select_by_id 83131 [earlier; later; neighbour; later_twin] = Some later /\
  exists pre post t,
    [earlier; later; neighbour; later_twin] = pre ++ later :: post /\
    stamp later = Some t /\
    (forall r t', In r pre -> usable 83131 r -> stamp r = Some t' ->
       String.ltb t' t = true) /\
    (forall r t', In r post -> usable 83131 r -> stamp r = Some t' ->
       String.ltb t t' = false).
Proof.
  pose proof (by_id_takes_the_first_of_the_latest 83131
                [earlier; later; neighbour; later_twin]) as Hsel.
  assert (E : select_by_id 83131 [earlier; later; neighbour; later_twin]
              = Some later) by reflexivity.
  rewrite E in Hsel. destruct Hsel as [_ Hsel].
  split; [reflexivity |]. split; [exact E | exact Hsel].
Defined.

(** ** The nearest sensor *)

Section Binary64Nearest.

Import B64.

Context {M : PyMath float}.














End Binary64Nearest.

(** ** Where the fetched values come from *)

Section FetchProvenance.

Context {F : Type} `{PyFloat F} `{PyMath F}.

Lemma nearest_loop_member (lat lon : F) (data : list (reading F))
    (best : option (reading F)) (best_d : F) (c : reading F) :
  nearest_loop lat lon data best best_d = Ret (Some c) ->
  In c data \/ best = Some c.
Proof.
  revert best best_d. induction data as [| entry rest IH]; intros best best_d.
  - cbn [nearest_loop]. intros [= ->]. right. reflexivity.
  - cbn [nearest_loop].
    assert (Hrec : forall b bd, nearest_loop lat lon rest b bd = Ret (Some c) ->
                     (b = best \/ b = Some entry) ->
                     In c (entry :: rest) \/ best = Some c).
    { intros b bd Hloop Hb. destruct (IH b bd Hloop) as [Hin | ->].
      - left. right. exact Hin.
      - destruct Hb as [<- | [= ->]]; [right; reflexivity | left; left; reflexivity]. }
    destruct (latitude entry) as [slat |]; [| intros Hl; eapply Hrec; eauto].
    destruct (longitude entry) as [slon |]; [| intros Hl; eapply Hrec; eauto].
    destruct (dist_km lat lon slat slon) as [d | e]; [| discriminate].
    rewrite py_bind_ret.
    destruct (f_lt d best_d); intros Hl; eapply Hrec; eauto.
Qed.

Lemma select_by_id_member (sid : Z) (data : list (reading F)) (c : reading F) :
  select_by_id sid data = Some c -> In c data.
Proof.
  intros Hsel. pose proof (by_id_fold_invariant sid data) as Hinv.
  unfold select_by_id in Hsel.
  destruct (fold_left (by_id_step sid) data (None, None)) as [[t|] [c'|]];
    cbn [snd] in Hsel; try discriminate; cbn [by_id_invariant] in Hinv;
    try contradiction.
  injection Hsel as <-. tauto.
Qed.

Lemma select_candidate_member (lat lon : F) (sid : option Z)
    (data : list (reading F)) (c : reading F) :
  select_candidate lat lon sid data = Ret (Some c) -> In c data.
Proof.
  unfold select_candidate.
  destruct (match sid with Some s => select_by_id s data | None => None end)
    as [c' |] eqn:Eid.
  - intros [= <-]. destruct sid as [s |]; [| discriminate].
    eapply select_by_id_member; eassumption.
  - unfold select_nearest. intros Hn.
    destruct (nearest_loop_member _ _ _ _ _ _ Hn) as [Hin | Hb];
      [exact Hin | discriminate].
Qed.

(** X9: the two values that [fetch_sensor_data] returns are both absent,
    or they are what [extract_pm] reads from one single entry of the
    decoded payload, the candidate that the two loops select. *)
Theorem fetched_values_come_from_one_entry
    (requests_get : F -> F -> Z -> py (http_response F))
    (lat lon : F) (sid : option Z) (radius_km : Z) (p25 p10 : option F) :
  fetch_sensor_data requests_get lat lon sid radius_km = Ret (p25, p10) ->
  (p25 = None /\ p10 = None) \/
  exists resp data c,
    requests_get lat lon radius_km = Ret resp /\
    json resp = Ret (Readings data) /\
    select_candidate lat lon sid data = Ret (Some c) /\
    In c data /\ extract_pm c = (p25, p10).
Proof.
  unfold fetch_sensor_data.
  destruct (requests_get lat lon radius_km) as [resp | e]; [| discriminate].
  rewrite py_bind_ret.
  destruct (raise_for_status resp) as [[] | e]; [| discriminate].
  rewrite py_bind_ret.
  destruct (json resp) as [[| data] | e] eqn:Ej; [| | discriminate].
  - rewrite py_bind_ret. intros [= <- <-]. left. auto.
  - rewrite py_bind_ret. destruct data as [| r0 data']; [intros [= <- <-]; left; auto |].
    destruct (select_candidate lat lon sid (r0 :: data')) as [[c |] | e] eqn:Ec;
      [| | discriminate]; rewrite py_bind_ret.
    + intros [= Hx]. right. exists resp, (r0 :: data'), c.
      split; [reflexivity |]. split; [exact Ej |]. split; [exact Ec |].
      split; [eapply select_candidate_member; exact Ec | exact Hx].
    + intros [= <- <-]. left. auto.
Qed.

End FetchProvenance.

(** ** Entries without coordinates *)

Section NoCoordinates.

Context {F : Type} `{PyFloat F} `{PyMath F}.



End NoCoordinates.


(** ** Completed runs *)

Lemma load_json_unusable {J : Type} (json_loads : string -> py J)
    (path : path_state) (default : J) :
  unusable json_loads path -> load_json json_loads path default = Ret default.
Proof.
  unfold load_json.
  intros [-> | [(e & ->) | (text & e & -> & Hl)]].
  - reflexivity.
  - destruct (path_exists path); reflexivity.
  - destruct (path_exists path); [| reflexivity]. cbn. rewrite Hl. reflexivity.
Qed.


Section RunProperties.

Context {F : Type} `{PyFloat F} `{PyMath F} (cfg : settings F).
Context (requests_get : F -> F -> Z -> py (http_response F)).
Context (loads_state : string -> py (gmap string state_entry)).
Context (loads_history : string -> py (gmap string (list (history_entry F)))).

(** What a step that completes has done. *)
Lemma main_step_completes prev now_iso now_ts acc key (loc : location F) acc' :
  main_step cfg requests_get prev now_iso now_ts acc (key, loc) = Ret acc' ->
  exists v,
    block_ok prev (key, v) /\ v_name v = name loc /\
    out_lines acc' = out_lines acc ++ [(key, v)] /\
    out_state acc'
      = <[ key := {| st_aqi := v_aqi v; st_updated := now_iso |} ]> (out_state acc) /\
    out_history acc'
      = update_history cfg (out_history acc) key now_ts
          (v_aqi v) (v_pm25 v) (v_pm10 v).
Proof.
  unfold main_step.
  destruct (fetch_sensor_data requests_get (lat loc) (lon loc)
              (loc_sensor_id loc) (RADIUS_KM cfg)) as [[p25 p10] | e];
    [| discriminate].
  rewrite py_bind_ret.
  destruct (calc_aqi p25 p10) as [a | e] eqn:Ea; [| discriminate].
  rewrite py_bind_ret.
  destruct a as [n |]; intros [= <-]; eexists;
    (split; [| split; [| split; [| split]]]);
    try (cbn [out_lines out_state out_history]; reflexivity).
  - cbn [block_ok v_aqi v_pm25 v_pm10 v_category v_color v_icon].
    split; [exact Ea |]. split; [| reflexivity].
    destruct (category_and_color n); reflexivity.
  - reflexivity.
  - cbn [block_ok v_aqi v_pm25 v_pm10 v_category v_color v_icon].
    split; [exact Ea |]. auto.
  - reflexivity.
Qed.

(** A property of the accumulator that every completed step keeps holds
    at the end of a completed loop. *)
Lemma main_loop_invariant
    (P : list (string * location F) -> run_output F -> Prop)
    prev now_iso now_ts :
  (forall seen acc item acc', P seen acc ->
     main_step cfg requests_get prev now_iso now_ts acc item = Ret acc' ->
     P (seen ++ [item]) acc') ->
  forall items seen acc out, P seen acc ->
    main_loop cfg requests_get prev now_iso now_ts items acc = Ret out ->
    P (seen ++ items) out.
Proof.
  intros Hstep. induction items as [| item rest IH]; intros seen acc out HP.
  - cbn [main_loop]. intros [= <-]. rewrite app_nil_r. exact HP.
  - cbn [main_loop].
    destruct (main_step cfg requests_get prev now_iso now_ts acc item)
      as [acc' | e] eqn:Es; [| discriminate].
    rewrite py_bind_ret. intros Hloop.
    replace (seen ++ item :: rest) with ((seen ++ [item]) ++ rest)
      by (rewrite <- app_assoc; reflexivity).
    eapply IH; [| exact Hloop]. eapply Hstep; eassumption.
Qed.

(** A completed run is a completed loop from the loaded snapshots. *)
Lemma main_completes state_file history_file now_iso now_ts out :
  main cfg requests_get loads_state loads_history state_file history_file
    now_iso now_ts = Ret out ->
  exists prev h0,
    load_json loads_state state_file ∅ = Ret prev /\
    load_json loads_history history_file ∅ = Ret h0 /\
    main_loop cfg requests_get prev now_iso now_ts (LOCATIONS cfg)
      {| out_lines := []; out_state := ∅; out_history := h0 |} = Ret out.
Proof.
  unfold main.
  destruct (load_json loads_state state_file ∅) as [prev | e]; [| discriminate].
  destruct (load_json loads_history history_file ∅) as [h0 | e]; [| discriminate].
  rewrite !py_bind_ret. eauto.
Qed.

(** X10: a completed run writes one block per location, in the order of
    [LOCATIONS] and under the name of the location; the new state holds
    exactly the keys of [LOCATIONS], whatever the previous state held, and
    every entry of it carries the time of the run. *)
Theorem run_reports_every_location state_file history_file now_iso now_ts out :
  main cfg requests_get loads_state loads_history state_file history_file
    now_iso now_ts = Ret out ->
  map (fun '(key, v) => (key, v_name v)) (out_lines out)
    = map (fun '(key, loc) => (key, name loc)) (LOCATIONS cfg) /\
  (forall key, is_Some (out_state out !! key) <-> In key (location_keys cfg)) /\
  (forall key s, out_state out !! key = Some s -> st_updated s = now_iso).
Proof.
  intros Hmain.
  destruct (main_completes _ _ _ _ _ Hmain) as (prev & h0 & _ & _ & Hloop).
  pose (P := fun (seen : list (string * location F)) (acc : run_output F) =>
    map (fun '(key, v) => (key, v_name v)) (out_lines acc)
      = map (fun '(key, loc) => (key, name loc)) seen /\
    (forall key, is_Some (out_state acc !! key) <-> In key (map fst seen)) /\
    (forall key s, out_state acc !! key = Some s -> st_updated s = now_iso)).
  apply (main_loop_invariant P prev now_iso now_ts) with (seen := []) in Hloop.
  - exact Hloop.
  - clear. intros seen acc [key loc] acc' (Hl & Hs & Hu) Hstep.
    destruct (main_step_completes _ _ _ _ _ _ _ Hstep)
      as (v & _ & Hn & El & Es & _).
    unfold P. rewrite El, Es, !map_app, Hl. cbn [map fst]. rewrite Hn.
    split; [reflexivity |]. split.
    + intros k. rewrite in_app_iff. cbn [In].
      destruct (decide (key = k)) as [-> | Hne].
      * rewrite lookup_insert_eq. split; [intros _; auto | intros _; eauto].
      * rewrite lookup_insert_ne by exact Hne. rewrite Hs. tauto.
    + intros k s. destruct (decide (key = k)) as [-> | Hne].
      * rewrite lookup_insert_eq. intros [= <-]. reflexivity.
      * rewrite lookup_insert_ne by exact Hne. apply Hu.
  - unfold P. cbn [out_lines out_state map]. split; [reflexivity |].
    split; [| intros k s; rewrite lookup_empty; discriminate].
    intros k. rewrite lookup_empty. split; [intros [? [=]] | intros []].
Qed.

(** X11: a completed run leaves the history lists of the keys that are not
    in [LOCATIONS] as they were loaded: they are neither pruned nor
    dropped. *)
Theorem history_of_other_keys_is_kept state_file history_file now_iso now_ts out :
  main cfg requests_get loads_state loads_history state_file history_file
    now_iso now_ts = Ret out ->
  exists h0, load_json loads_history history_file ∅ = Ret h0 /\
    forall key, ~ In key (location_keys cfg) ->
      out_history out !! key = h0 !! key.
Proof.
  intros Hmain.
  destruct (main_completes _ _ _ _ _ Hmain) as (prev & h0 & _ & Hh & Hloop).
  exists h0. split; [exact Hh |].
  pose (P := fun (seen : list (string * location F)) (acc : run_output F) =>
    forall key, ~ In key (map fst seen) -> out_history acc !! key = h0 !! key).
  apply (main_loop_invariant P prev now_iso now_ts) with (seen := []) in Hloop.
  - exact Hloop.
  - clear. intros seen acc [key loc] acc' HP Hstep.
    destruct (main_step_completes _ _ _ _ _ _ _ Hstep)
      as (v & _ & _ & _ & _ & Eh).
    unfold P. intros k Hk. rewrite Eh. unfold update_history.
    rewrite map_app, in_app_iff in Hk. cbn [map fst In] in Hk.
    rewrite lookup_insert_ne by (intros ->; tauto).
    apply HP. tauto.
  - intros key _. reflexivity.
Qed.

(** X12: every block of a completed run agrees with itself: its index is
    the AQI of the two concentrations it shows; without an index it shows
    "No data", grey and a flat trend; with an index it shows the category
    and colour of the index and its trend against the index that the
    loaded previous state holds for the key. *)
Theorem every_block_is_consistent state_file history_file now_iso now_ts out :
  main cfg requests_get loads_state loads_history state_file history_file
    now_iso now_ts = Ret out ->
  exists prev, load_json loads_state state_file ∅ = Ret prev /\
    Forall (block_ok prev) (out_lines out).
Proof.
  intros Hmain.
  destruct (main_completes _ _ _ _ _ Hmain) as (prev & h0 & Hp & _ & Hloop).
  exists prev. split; [exact Hp |].
  pose (P := fun (seen : list (string * location F)) (acc : run_output F) =>
    Forall (block_ok prev) (out_lines acc)).
  apply (main_loop_invariant P prev now_iso now_ts) with (seen := []) in Hloop.
  - exact Hloop.
  - clear. intros seen acc [key loc] acc' HP Hstep.
    destruct (main_step_completes _ _ _ _ _ _ _ Hstep)
      as (v & Hok & _ & El & _).
    unfold P. rewrite El. apply Forall_app. split; [exact HP |].
    apply List.Forall_cons; [exact Hok | apply List.Forall_nil].
  - apply List.Forall_nil.
Qed.

(** X13: when the state file is missing, unreadable or not JSON, every
    block of the run shows a flat trend. *)
Theorem first_run_has_flat_trends state_file history_file now_iso now_ts out :
  unusable loads_state state_file ->
  main cfg requests_get loads_state loads_history state_file history_file
    now_iso now_ts = Ret out ->
  Forall (fun block => v_icon (snd block) = "arrow_flat"%string) (out_lines out).
Proof.
  intros Hun Hmain.
  destruct (main_completes _ _ _ _ _ Hmain) as (prev & h0 & Hp & _ & Hloop).
  rewrite (load_json_unusable loads_state state_file ∅ Hun) in Hp.
  injection Hp as <-.
  pose (P := fun (seen : list (string * location F)) (acc : run_output F) =>
    Forall (fun block => v_icon (snd block) = "arrow_flat"%string) (out_lines acc)).
  apply (main_loop_invariant P ∅ now_iso now_ts) with (seen := []) in Hloop.
  - exact Hloop.
  - clear. intros seen acc [key loc] acc' HP Hstep.
    destruct (main_step_completes _ _ _ _ _ _ _ Hstep)
      as (v & (_ & Hok) & _ & El & _).
    unfold P. rewrite El. apply Forall_app. split; [exact HP |].
    apply List.Forall_cons; [| apply List.Forall_nil]. cbn [snd].
    destruct (v_aqi v) as [n |].
    + destruct Hok as [_ ->]. rewrite lookup_empty. reflexivity.
    + tauto.
  - apply List.Forall_nil.
Qed.

(** X15: after a completed run, every sample in the history of a
    configured location is within the retention window of the time of the
    run. *)
Theorem history_is_fresh_after_a_run state_file history_file now_iso now_ts out :
  main cfg requests_get loads_state loads_history state_file history_file
    now_iso now_ts = Ret out ->
  forall key entries e,
    In key (location_keys cfg) -> out_history out !! key = Some entries ->
    In e entries ->
    f_le (f_sub now_ts (ts e)) (f_of_Z (HOURS_HISTORY cfg * 3600)) = true.
Proof.
  intros Hmain.
  destruct (main_completes _ _ _ _ _ Hmain) as (prev & h0 & _ & _ & Hloop).
  pose (P := fun (seen : list (string * location F)) (acc : run_output F) =>
    forall key entries e,
      In key (map fst seen) -> out_history acc !! key = Some entries ->
      In e entries ->
      f_le (f_sub now_ts (ts e)) (f_of_Z (HOURS_HISTORY cfg * 3600)) = true).
  apply (main_loop_invariant P prev now_iso now_ts) with (seen := []) in Hloop.
  - exact Hloop.
  - clear. intros seen acc [key loc] acc' HP Hstep.
    destruct (main_step_completes _ _ _ _ _ _ _ Hstep)
      as (v & _ & _ & _ & _ & Eh).
    unfold P. intros k entries e Hk. rewrite Eh. unfold update_history.
    destruct (decide (key = k)) as [-> | Hne].
    + rewrite lookup_insert_eq. intros [= <-] He.
      apply List.filter_In in He. destruct He as [_ He]. exact He.
    + rewrite lookup_insert_ne by exact Hne.
      rewrite map_app, in_app_iff in Hk. cbn [map fst In] in Hk.
      apply HP. tauto.
  - intros key entries e [].
Qed.

(** X16: with distinct keys in [LOCATIONS], the state entry of a key holds
    the index that the block of the key shows, and the time of the run. *)
Theorem state_is_what_the_blocks_show state_file history_file now_iso now_ts out :
  List.NoDup (location_keys cfg) ->
  main cfg requests_get loads_state loads_history state_file history_file
    now_iso now_ts = Ret out ->
  forall key v, In (key, v) (out_lines out) ->
    out_state out !! key = Some {| st_aqi := v_aqi v; st_updated := now_iso |}.
Proof.
  intros Hnd Hmain.
  destruct (main_completes _ _ _ _ _ Hmain) as (prev & h0 & _ & _ & Hloop).
  pose (P := fun (seen : list (string * location F)) (acc : run_output F) =>
    List.NoDup (map fst seen) ->
    (forall key v, In (key, v) (out_lines acc) -> In key (map fst seen)) /\
    forall key v, In (key, v) (out_lines acc) ->
      out_state acc !! key = Some {| st_aqi := v_aqi v; st_updated := now_iso |}).
  apply (main_loop_invariant P prev now_iso now_ts) with (seen := []) in Hloop.
  - apply Hloop. exact Hnd.
  - clear. intros seen acc [key loc] acc' HP Hstep.
    destruct (main_step_completes _ _ _ _ _ _ _ Hstep)
      as (v & _ & _ & El & Es & _).
    unfold P. rewrite El, Es, map_app. cbn [map fst].
    intros Hnd. apply List.NoDup_remove in Hnd. rewrite app_nil_r in Hnd.
    destruct Hnd as (Hnd & Hfresh).
    destruct (HP Hnd) as [Hkeys Hstate]. split.
    + intros k w [Hin | [[= <- <-] | []]]%in_app_or; apply in_or_app;
        [left; eauto | right; left; reflexivity].
    + intros k w [Hin | [[= <- <-] | []]]%in_app_or.
      * assert (key <> k) by (intros ->; eauto).
        rewrite lookup_insert_ne by assumption. eauto.
      * apply lookup_insert_eq.
  - intros _. split; intros key v [].
Qed.

End RunProperties.

(** ** The sample appended by a run, in binary64 arithmetic *)

Section Binary64Run.

Context {M : PyMath float} (cfg : settings float).
Context (requests_get : float -> float -> Z -> py (http_response float)).
Context (loads_state : string -> py (gmap string state_entry)).
Context (loads_history : string -> py (gmap string (list (history_entry float)))).

Lemma update_history_appends
    (history : gmap string (list (history_entry float))) (key : string)
    (now : float) (a : option Z) (p25 p10 : option float) :
  is_finite now = true -> 0 <= HOURS_HISTORY cfg * 3600 <= 2 ^ 53 ->
  exists kept,
    update_history cfg history key now a p25 p10 !! key
    = Some (kept ++ [ {| ts := now; aqi := a; pm25 := p25; pm10 := p10 |} ]).
Proof.
  intros Hfin Hwin.
  assert (Hnn : nn (B64.of_Z (HOURS_HISTORY cfg * 3600))).
  { apply of_Z_nn. split; [lia |].
    eapply Z.le_lt_trans; [apply Hwin | apply pow2_lt; lia]. }
  unfold update_history. rewrite lookup_insert_eq, List.filter_app.
  eexists. f_equal. f_equal.
  cbn [List.filter fresh_enough ts f_le f_sub f_of_Z binary64].
  rewrite (sub_diag_zero now Hfin), (zero_leb_nn _ Hnn). reflexivity.
Qed.

(** X14: with distinct keys in [LOCATIONS], a finite time of the run and
    a retention window between 0 and 2^53 seconds, the history of each
    location ends with the sample of the run, which holds the index and the
    two concentrations that the block of the location shows. *)
Theorem history_ends_with_what_the_block_shows
    state_file history_file now_iso now_ts out :
  List.NoDup (location_keys cfg) ->
  is_finite now_ts = true -> 0 <= HOURS_HISTORY cfg * 3600 <= 2 ^ 53 ->
  main cfg requests_get loads_state loads_history state_file history_file
    now_iso now_ts = Ret out ->
  forall key v, In (key, v) (out_lines out) ->
    exists entries, out_history out !! key = Some entries /\
      last entries = Some (sample_of now_ts v).
Proof.
  intros Hnd Hfin Hwin Hmain.
  destruct (main_completes _ _ _ _ _ _ _ _ _ Hmain) as (prev & h0 & _ & _ & Hloop).
  pose (P := fun (seen : list (string * location float)) (acc : run_output float) =>
    List.NoDup (map fst seen) ->
    (forall key v, In (key, v) (out_lines acc) -> In key (map fst seen)) /\
    forall key v, In (key, v) (out_lines acc) ->
      exists entries, out_history acc !! key = Some entries /\
        last entries = Some (sample_of now_ts v)).
  apply (main_loop_invariant cfg requests_get P prev now_iso now_ts)
    with (seen := []) in Hloop.
  - apply Hloop. exact Hnd.
  - clear - Hfin Hwin. intros seen acc [key loc] acc' HP Hstep.
    destruct (main_step_completes _ _ _ _ _ _ _ _ _ Hstep)
      as (v & _ & _ & El & _ & Eh).
    unfold P. rewrite El, Eh, map_app. cbn [map fst].
    intros Hnd. apply List.NoDup_remove in Hnd. rewrite app_nil_r in Hnd.
    destruct Hnd as (Hnd & Hfresh).
    destruct (HP Hnd) as [Hkeys Hhist]. split.
    + intros k w [Hin | [[= <- <-] | []]]%in_app_or; apply in_or_app;
        [left; eauto | right; left; reflexivity].
    + intros k w [Hin | [[= <- <-] | []]]%in_app_or.
      * assert (key <> k) by (intros ->; eauto).
        unfold update_history. rewrite lookup_insert_ne by assumption. eauto.
      * destruct (update_history_appends (out_history acc) key now_ts
                    (v_aqi v) (v_pm25 v) (v_pm10 v) Hfin Hwin) as (kept & ->).
        eexists. split; [reflexivity |]. apply last_snoc.
  - intros _. split; intros key v [].
Qed.

End Binary64Run.

(** ** Two runs compared *)

Section TwoRuns.

Context {F : Type} `{PyFloat F} `{PyMath F} (cfg : settings F).
Context (requests_get : F -> F -> Z -> py (http_response F)).



Context (loads_state : string -> py (gmap string state_entry)).



End TwoRuns.

(** ** Samples stamped after the run *)

Section LaterSamples.

Import B64.

(** Rounding a negative value is rounding its opposite. *)
Lemma binary_round_opp (m : positive) (e : Z) :
  binary_round prec emax true m e = SFopp (binary_round prec emax false m e).
Proof.
  unfold binary_round.
  destruct (shl_align m e (fexp prec emax (Z.pos (digits2_pos m) + e)))
    as [mz ez].
  unfold binary_round_aux.
  destruct (shr_fexp prec emax (Z.pos mz) ez loc_Exact) as [mrs' e'].
  destruct (shr_fexp prec emax
              (round_nearest_even (shr_m mrs') (loc_of_shr_record mrs'))
              e' loc_Exact) as [mrs'' e''].
  destruct (shr_m mrs''); try reflexivity.
  destruct (e'' <=? emax - prec); reflexivity.
Qed.

Lemma opp_nonneg_key (x : spec_float) :
  nonneg x -> is_nan_sf (SFopp x) = false /\ key (SFopp x) <= 0.
Proof.
  destruct x as [s | s | | [|] m e]; cbn [nonneg]; try contradiction; intros _;
    cbn [SFopp is_nan_sf key negb]; split; try reflexivity; lia.
Qed.

(** A difference of two non-negative floats whose first is not the greater
    is a number that is not positive. *)
Lemma SFsub_not_positive (x y : spec_float) :
  valid_binary x = true -> valid_binary y = true -> nonneg x -> nonneg y ->
  key x <= key y -> key y < value_bound ->
  is_nan_sf (SFsub prec emax x y) = false /\ key (SFsub prec emax x y) <= 0.
Proof.
  destruct x as [sx | sx | | [|] mx ex], y as [sy | sy | | [|] my ey];
    cbn [nonneg]; try contradiction; intros Vx Vy _ _ Hle Hb.
  - cbn [SFsub]. destruct sx, sy; split; reflexivity.
  - cbn [SFsub negb is_nan_sf key]. split; [reflexivity |].
    cbn [valid_binary] in Vy. pose proof (finite_key_pos my ey Vy). lia.
  - cbn [valid_binary] in Vx. rewrite key_finite in Hle.
    pose proof (finite_key_pos mx ex Vx). cbn [key] in Hle. lia.
  - cbn [valid_binary] in Vx, Vy. cbn [SFsub cond_Zopp].
    destruct (aligned_keys mx my ex ey Vx Vy) as (ax & ay & -> & -> & Hez & Hax & Hay).
    rewrite !key_finite in *.
    pose proof (pow2_pos (Z.min ex ey + 1074) ltac:(lia)) as Hp.
    pose proof (finite_key_pos mx ex Vx) as Hx0.
    destruct (Z.pos ax - Z.pos ay) as [| dm | dm] eqn:Ed; cbn [binary_normalize].
    + split; reflexivity.
    + exfalso. assert (Hlt : Z.pos ay < Z.pos ax) by lia.
      apply (Z.mul_lt_mono_pos_r _ _ _ Hp) in Hlt. lia.
    + rewrite binary_round_opp. apply opp_nonneg_key.
      apply (binary_round_key dm (Z.min ex ey)
               (Z.pos my * 2 ^ (ey + 1074) - Z.pos mx * 2 ^ (ex + 1074)));
        [exact Hez | | lia].
      assert (Edm : Z.pos dm = Z.pos ay - Z.pos ax)
        by (change (Z.neg dm) with (- Z.pos dm) in Ed; lia).
      rewrite Edm, Z.mul_sub_distr_r, Hax, Hay. reflexivity.
Qed.

Lemma b64_sub_not_positive (x y r : float) :
  nn x -> nn y -> fkey x <= fkey y -> fkey y < value_bound -> nn r ->
  (x - y <=? r)%float = true.
Proof.
  intros Hx Hy Hle Hb Hr.
  destruct (SFsub_not_positive (Prim2SF x) (Prim2SF y)
              (Prim2SF_valid x) (Prim2SF_valid y) Hx Hy Hle Hb) as [Hn Hk].
  rewrite <- sub_spec in Hn, Hk. rewrite <- is_nan_spec in Hn.
  destruct (nn_key r Hr) as [Nr Kr].
  rewrite (leb_key _ r Hn Nr). apply Z.leb_le. unfold fkey in *. lia.
Qed.

Context (cfg : settings float).

(** X21: a sample whose timestamp is not before the time of the run (the
    clock was set back since) is never pruned, whatever the distance
    between the two.  Timestamps are non-negative numbers up to 2^53, the
    window a number of seconds from 0 to 2^53. *)
Theorem samples_stamped_later_are_kept
    (history : gmap string (list (history_entry float))) (key : string)
    (now : float) (a : option Z) (p25 p10 : option float)
    (e : history_entry float) :
  0 <= HOURS_HISTORY cfg * 3600 <= 2 ^ 53 ->
  (0 <=? now)%float = true -> (now <=? ts e)%float = true ->
  (ts e <=? 9007199254740992)%float = true ->
  In e (default [] (history !! key)) ->
  exists kept,
    update_history cfg history key now a p25 p10 !! key = Some kept /\
    In e kept.
Proof.
  intros Hwin H0 Hle Hmax Hin.
  assert (Hnn : nn (B64.of_Z (HOURS_HISTORY cfg * 3600))).
  { apply of_Z_nn. split; [lia |].
    eapply Z.le_lt_trans; [apply Hwin | apply pow2_lt; lia]. }
  apply leb_true_keys in H0, Hle, Hmax.
  destruct H0 as (_ & Nnow & K0), Hle as (_ & Nts & Kle), Hmax as (_ & _ & Kmax).
  assert (Ktop : fkey 9007199254740992 < value_bound) by (vm_compute; reflexivity).
  assert (Kzero : fkey 0 = 0) by reflexivity.
  assert (Hhuge : value_bound < huge) by (apply pow2_lt; lia).
  assert (Hnow : nn now) by (apply key_nn; [exact Nnow | lia]).
  assert (Hts : nn (ts e)) by (apply key_nn; [exact Nts | lia]).
  unfold update_history. rewrite lookup_insert_eq. eexists. split; [reflexivity |].
  apply List.filter_In. split; [apply in_or_app; left; exact Hin |].
  cbn [fresh_enough f_le f_sub f_of_Z binary64].
  apply b64_sub_not_positive; try assumption. lia.
Qed.

End LaterSamples.

Lemma samples_stamped_later_are_kept_witness :
  exists kept,
    update_history source_settings
      {[ "home"%string := [ sample 1700090000.0 70 ] ]} "home" now_example
      (Some 42) None None !! "home"%string = Some kept /\
    In (sample 1700090000.0 70) kept.
Proof.
  apply (samples_stamped_later_are_kept source_settings
           {[ "home"%string := [ sample 1700090000.0 70 ] ]} "home" now_example
           (Some 42) None None (sample 1700090000.0 70)).
  - split; [discriminate | vm_compute; discriminate].
  - reflexivity.
  - reflexivity.
  - reflexivity.
  - left. reflexivity.
Defined.

(** ** The concrete run *)

Lemma fetched_values_come_from_one_entry_witness :
  json both_report = Ret (Readings [earlier; neighbour; later; stale; vanya_report]) /\
  forall (M : PyMath float),
    fetch_sensor_data answer_both 40.0%float 44.5%float (Some 83131) 2
      = Ret (Some 31.5%float, None) /\
    exists c, In c [earlier; neighbour; later; stale; vanya_report] /\
      extract_pm c = (Some 31.5%float, None).
Proof.
  split; [reflexivity |]. intros M.
  assert (E : fetch_sensor_data answer_both 40.0%float 44.5%float (Some 83131) 2
              = Ret (Some 31.5%float, None)) by reflexivity.
  split; [exact E |].
  destruct (fetched_values_come_from_one_entry answer_both 40.0%float 44.5%float
              (Some 83131) 2 (Some 31.5%float) None E)
    as [[Hn _] | (resp & data & c & Hget & Hjson & _ & Hin & Hc)]; [discriminate |].
  injection Hget as <-. injection Hjson as <-.
  exists c. split; assumption.
Defined.

Lemma run_reports_every_location_witness :
  location_keys (source_settings (F:=float)) = ["home"; "vanya"]%string /\
  forall M : PyMath float, exists out,
    example_run M = Ret out /\
    map (fun '(key, v) => (key, v_name v)) (out_lines out)
      = [("home", "My Home"); ("vanya", "Vanya's Home")]%string.
Proof.
  split; [reflexivity |]. intros M.
  destruct (example_run M) as [out | e] eqn:E; [| vm_compute in E; discriminate].
  exists out. split; [reflexivity |].
  destruct (run_reports_every_location source_settings answer_both
              loads_empty_object loads_old_history missing_file
              history_file_example now_iso_example now_example out E)
    as (Hnames & _).
  rewrite Hnames. reflexivity.
Defined.

Lemma history_of_other_keys_is_kept_witness :
  old_history !! "office"%string = Some [ sample 1600000000.0 80 ] /\
  forall M : PyMath float, exists out,
    example_run M = Ret out /\
    out_history out !! "office"%string = Some [ sample 1600000000.0 80 ].
Proof.
  split; [reflexivity |]. intros M.
  destruct (example_run M) as [out | e] eqn:E; [| vm_compute in E; discriminate].
  exists out. split; [reflexivity |].
  destruct (history_of_other_keys_is_kept source_settings answer_both
              loads_empty_object loads_old_history missing_file
              history_file_example now_iso_example now_example out E)
    as (h0 & Hh & Hkeep).
  assert (Hh' : load_json loads_old_history history_file_example ∅
                = Ret old_history) by reflexivity.
  rewrite Hh' in Hh. injection Hh as <-.
  rewrite (Hkeep "office"%string); [reflexivity |].
  cbn. intros [Heq | [Heq | []]]; discriminate.
Defined.

Lemma every_block_is_consistent_witness :
  load_json loads_empty_object missing_file ∅ = Ret ∅ /\
  forall M : PyMath float, exists out,
    example_run M = Ret out /\ Forall (block_ok ∅) (out_lines out).
Proof.
  split; [reflexivity |]. intros M.
  destruct (example_run M) as [out | e] eqn:E; [| vm_compute in E; discriminate].
  exists out. split; [reflexivity |].
  destruct (every_block_is_consistent source_settings answer_both
              loads_empty_object loads_old_history missing_file
              history_file_example now_iso_example now_example out E)
    as (prev & Hp & Hok).
  assert (Hp' : load_json loads_empty_object missing_file ∅ = Ret ∅)
    by reflexivity.
  rewrite Hp' in Hp. injection Hp as <-. exact Hok.
Defined.

Lemma first_run_has_flat_trends_witness :
  unusable loads_empty_object missing_file /\
  forall M : PyMath float, exists out,
    example_run M = Ret out /\
    Forall (fun block => v_icon (snd block) = "arrow_flat"%string) (out_lines out).
Proof.
  assert (Hun : unusable loads_empty_object missing_file) by (left; reflexivity).
  split; [exact Hun |]. intros M.
  destruct (example_run M) as [out | e] eqn:E; [| vm_compute in E; discriminate].
  exists out. split; [reflexivity |].
  exact (first_run_has_flat_trends source_settings answer_both
           loads_empty_object loads_old_history missing_file
           history_file_example now_iso_example now_example out Hun E).
Defined.

Lemma example_run_shows_home (M : PyMath float) (out : run_output float) :
  example_run M = Ret out -> In ("home"%string, home_block) (out_lines out).
Proof.
  intros E. vm_compute in E. injection E as <-. left. reflexivity.
Qed.

Lemma history_ends_with_what_the_block_shows_witness :
  is_finite now_example = true /\
  forall M : PyMath float, exists out entries,
    example_run M = Ret out /\
    out_history out !! "home"%string = Some entries /\
    last entries = Some {| ts := now_example; aqi := Some 92;
                           pm25 := Some 31.5%float; pm10 := None |}.
Proof.
  split; [reflexivity |]. intros M.
  destruct (example_run M) as [out | e] eqn:E; [| vm_compute in E; discriminate].
  destruct (history_ends_with_what_the_block_shows source_settings answer_both
              loads_empty_object loads_old_history missing_file
              history_file_example now_iso_example now_example out)
    with (key := "home"%string) (v := home_block) as (entries & Hh & Hl).
  - repeat constructor; cbn; intuition discriminate.
  - reflexivity.
  - split; [discriminate | vm_compute; discriminate].
  - exact E.
  - exact (example_run_shows_home M out E).
  - exists out, entries. split; [reflexivity |]. split; [exact Hh | exact Hl].
Defined.

Lemma history_is_fresh_after_a_run_witness :
  In "home"%string (location_keys (source_settings (F:=float))) /\
  forall M : PyMath float, exists out entries,
    example_run M = Ret out /\
    out_history out !! "home"%string = Some entries /\
    Forall (fun e => (now_example - ts e <=? 86400)%float = true) entries.
Proof.
  split; [left; reflexivity |]. intros M.
  destruct (example_run M) as [out | e] eqn:E; [| vm_compute in E; discriminate].
  assert (Hs : exists entries, out_history out !! "home"%string = Some entries).
  { pose proof E as E'. vm_compute in E'. injection E' as <-.
    eexists. vm_compute. reflexivity. }
  destruct Hs as (entries & Eh).
  exists out, entries. split; [reflexivity |]. split; [exact Eh |].
  apply List.Forall_forall. intros e He.
  exact (history_is_fresh_after_a_run source_settings answer_both
           loads_empty_object loads_old_history missing_file
           history_file_example now_iso_example now_example out E
           "home"%string entries e (or_introl eq_refl) Eh He).
Defined.

Lemma state_is_what_the_blocks_show_witness :
  List.NoDup (location_keys (source_settings (F:=float))) /\
  forall M : PyMath float, exists out,
    example_run M = Ret out /\
    out_state out !! "home"%string
      = Some {| st_aqi := Some 92; st_updated := now_iso_example |}.
Proof.
  assert (Hnd : List.NoDup (location_keys (source_settings (F:=float))))
    by (repeat constructor; cbn; intuition discriminate).
  split; [exact Hnd |]. intros M.
  destruct (example_run M) as [out | e] eqn:E; [| vm_compute in E; discriminate].
  exists out. split; [reflexivity |].
  exact (state_is_what_the_blocks_show source_settings answer_both
           loads_empty_object loads_old_history missing_file
           history_file_example now_iso_example now_example out Hnd E
           "home"%string home_block (example_run_shows_home M out E)).
Defined.


